(** * bibtex-autocomplete: the lookup framework, the BibTeX helpers and the
    dispatcher, embedded from [bibtexautocomplete/bibtex.py],
    [bibtexautocomplete/lookup.py] and [bibtexautocomplete/autocomplete.py].

    Conventions of the embedding.
    - A Python [str] is a [string] holding its UTF-8 encoding. The string
      methods that depend on Unicode tables ([strip], [split] without
      argument, [lower]) are embedded as they act on ASCII strings
      ([Py.is_ascii]); what is proved with them is stated for ASCII
      strings, and where the code calls [str.lower] on arbitrary text the
      function is a parameter.
    - A BibTeX entry (a Python [dict] from field names to values) is a
      [gmap string string].
    - Code that can raise returns in [Py.res]; the exceptions are the
      constructors of [Py.exn].
    - Python semantics are those of CPython 3.7 and later (PEP 479 is in
      force for generators). *)

From Stdlib Require Import String Ascii List ZArith Lia Bool.
From Stdlib Require Import Sorting.Permutation Sorting.Sorted.
From stdpp Require Import base option list gmap strings.

Local Open Scope string_scope.

(** ** Python values, exceptions and string methods *)

Module Py.

Inductive exn : Type :=
| AttributeError (name : string)
| UnboundLocalError (name : string)
| KeyError (key : string)
| IndexError
| TypeError
| StopIteration
| RuntimeError
| UnicodeDecodeError
| JSONDecodeError
| OSError
| HTTPException
| NotImplementedError.

Inductive res (A : Type) : Type :=
| Ok (a : A)
| Raise (e : exn).

Arguments Ok {A} a.
Arguments Raise {A} e.

Definition bind {A B : Type} (m : res A) (k : A -> res B) : res B :=
  match m with
  | Ok a => k a
  | Raise e => Raise e
  end.

Definition raises {A : Type} (m : res A) : bool :=
  match m with
  | Ok _ => false
  | Raise _ => true
  end.

(** [xs[i]] on a list. *)
Definition index {A : Type} (xs : list A) (i : nat) : res A :=
  match xs !! i with
  | Some x => Ok x
  | None => Raise IndexError
  end.

(** [xs.pop()]: the list without its last element, and that element. *)
Definition pop {A : Type} (xs : list A) : res (list A * A) :=
  match last xs with
  | Some x => Ok (removelast xs, x)
  | None => Raise IndexError
  end.

(** A loop body run over a list, stopping at the first exception. *)
Fixpoint mapM {A B : Type} (f : A -> res B) (xs : list A) : res (list B) :=
  match xs with
  | [] => Ok []
  | x :: xs' =>
      bind (f x) (fun y => bind (mapM f xs') (fun ys => Ok (y :: ys)))
  end.

(** The first value that [f] gives along a list. *)
Fixpoint first_some {A B : Type} (f : A -> option B) (xs : list A) : option B :=
  match xs with
  | [] => None
  | x :: xs' =>
      match f x with
      | Some y => Some y
      | None => first_some f xs'
      end
  end.

(** [str.isspace] on one ASCII character: 9..13, 28..31 and the space.
    Python also counts U+0085, U+00A0, U+1680, U+2000 to U+200A, U+2028,
    U+2029, U+202F, U+205F and U+3000 as white space: [lstrip], [rstrip],
    [strip] and [split_ws] below are the methods of [str] on ASCII
    strings. *)
Definition isspace (c : ascii) : bool :=
  let n := nat_of_ascii c in
  (((9 <=? n) && (n <=? 13)) || ((28 <=? n) && (n <=? 32)))%nat.

Fixpoint lstrip (s : string) : string :=
  match s with
  | EmptyString => EmptyString
  | String c s' => if isspace c then lstrip s' else s
  end.

Fixpoint rstrip (s : string) : string :=
  match s with
  | EmptyString => EmptyString
  | String c s' =>
      match rstrip s' with
      | EmptyString => if isspace c then EmptyString else String c EmptyString
      | r => String c r
      end
  end.

(** [s.strip()] *)
Definition strip (s : string) : string := rstrip (lstrip s).

Fixpoint starts_with (p s : string) : bool :=
  match p, s with
  | EmptyString, _ => true
  | String a p', String b s' => Ascii.eqb a b && starts_with p' s'
  | String _ _, EmptyString => false
  end.

Fixpoint drop_chars (n : nat) (s : string) : string :=
  match n, s with
  | O, _ => s
  | S n', String _ s' => drop_chars n' s'
  | S _, EmptyString => EmptyString
  end.

(** [s.partition(sep)] when [sep] occurs: the text before and after the
    first occurrence of [sep]. *)
Fixpoint find_sep (sep s : string) : option (string * string) :=
  if starts_with sep s then Some (EmptyString, drop_chars (String.length sep) s)
  else
    match s with
    | EmptyString => None
    | String c s' =>
        match find_sep sep s' with
        | Some (a, b) => Some (String c a, b)
        | None => None
        end
    end.

Fixpoint split_aux (fuel : nat) (sep s : string) : list string :=
  match fuel with
  | O => [s]
  | S fuel' =>
      match find_sep sep s with
      | Some (a, b) => a :: split_aux fuel' sep b
      | None => [s]
      end
  end.

(** [s.split(sep)] for a non-empty [sep]; every cut removes at least one
    character, so [length s] rounds are enough. *)
Definition split_on (sep s : string) : list string :=
  split_aux (String.length s) sep s.

(** [s.split(sep, 1)] *)
Definition split_once (sep s : string) : list string :=
  match find_sep sep s with
  | Some (a, b) => [a; b]
  | None => [s]
  end.

(** [sep in s] *)
Definition contains (sep s : string) : bool :=
  match find_sep sep s with
  | Some _ => true
  | None => false
  end.

Fixpoint split_ws_aux (s cur : string) : list string :=
  match s with
  | EmptyString => if String.eqb cur EmptyString then [] else [cur]
  | String c s' =>
      if isspace c then
        if String.eqb cur EmptyString then split_ws_aux s' EmptyString
        else cur :: split_ws_aux s' EmptyString
      else split_ws_aux s' (cur +:+ String c EmptyString)
  end.

(** [s.split()]: the maximal runs of non-space characters. *)
Definition split_ws (s : string) : list string := split_ws_aux s EmptyString.

(** [sep.join(xs)] *)
Definition join (sep : string) (xs : list string) : string :=
  String.concat sep xs.

(** [s.replace(old, new)] for a non-empty [old]. *)
Definition replace (old new s : string) : string :=
  join new (split_on old s).

Definition lower_char (c : ascii) : ascii :=
  let n := nat_of_ascii c in
  if ((65 <=? n) && (n <=? 90))%nat then ascii_of_nat (n + 32) else c.

(** [s.lower()] on an ASCII string; the case mapping of other characters
    is not embedded. *)
Fixpoint lower (s : string) : string :=
  match s with
  | EmptyString => EmptyString
  | String c s' => String (lower_char c) (lower s')
  end.

(** [all(p(c) for c in s)] *)
Fixpoint all_chars (p : ascii -> bool) (s : string) : bool :=
  match s with
  | EmptyString => true
  | String c s' => p c && all_chars p s'
  end.

(** [s.isascii()] *)
Definition is_ascii (s : string) : bool :=
  all_chars (fun c => (nat_of_ascii c <? 128)%nat) s.

(** [x in xs] for a list of strings. *)
Definition mem (x : string) (xs : list string) : bool :=
  existsb (String.eqb x) xs.

Definition newline : string := String (ascii_of_nat 10) EmptyString.

(** [d[key]] on a dictionary. *)
Definition getitem (d : gmap string string) (key : string) : res string :=
  match d !! key with
  | Some v => Ok v
  | None => Raise (KeyError key)
  end.

(** A name that may not be bound yet: an instance attribute that only
    has an annotation in the class body, or a local variable assigned in
    one branch only. *)
Inductive slot (A : Type) : Type :=
| Missing
| Bound (v : A).

Arguments Missing {A}.
Arguments Bound {A} v.

(** [self.name] *)
Definition getattr {A : Type} (name : string) (s : slot A) : res A :=
  match s with
  | Bound v => Ok v
  | Missing => Raise (AttributeError name)
  end.

(** A read of the local variable [name]. *)
Definition local {A : Type} (name : string) (s : slot A) : res A :=
  match s with
  | Bound v => Ok v
  | Missing => Raise (UnboundLocalError name)
  end.

(** Code that mutates a state [S] and may raise: the state reached is
    kept when an exception leaves the code. *)
Definition M (S A : Type) : Type := S -> S * res A.

Definition ret {S A : Type} (a : A) : M S A := fun s => (s, Ok a).

Definition lift {S A : Type} (r : res A) : M S A := fun s => (s, r).

Definition mbind {S A B : Type} (m : M S A) (k : A -> M S B) : M S B :=
  fun s =>
    match m s with
    | (s', Ok a) => k a s'
    | (s', Raise e) => (s', Raise e)
    end.

Definition gets {S A : Type} (f : S -> A) : M S A := fun s => (s, Ok (f s)).

Definition modify {S : Type} (f : S -> S) : M S unit := fun s => (f s, Ok tt).

(** A value as a decorator expression sees it: [None], or a callable. *)
Inductive callable (F : Type) : Type :=
| PyNone
| PyFun (f : F).

Arguments PyNone {F}.
Arguments PyFun {F} f.

(** [f(x)]: calling [None] is a [TypeError]. *)
Definition call {A B : Type} (f : callable (A -> B)) (x : A) : res B :=
  match f with
  | PyFun g => Ok (g x)
  | PyNone => Raise TypeError
  end.

(** A generator run to exhaustion: the values it yields, and how its body
    ends. The generators of this program read nothing that their consumer
    writes, so the interleaving with the consumer is not modelled. *)
Definition generator (A : Type) : Type := list A * res unit.

(** PEP 479: a [StopIteration] raised by the body of a generator reaches
    the consumer as a [RuntimeError]. *)
Definition run_generator {A : Type} (body : generator A) : generator A :=
  match body with
  | (ys, Raise StopIteration) => (ys, Raise RuntimeError)
  | _ => body
  end.

(** [for x in g: body(x)] over a generator, in a state [S]. *)
Fixpoint for_each {S A : Type} (body : A -> M S unit) (ys : list A)
  (ending : res unit) : M S unit :=
  match ys with
  | [] => lift ending
  | y :: ys' => mbind (body y) (fun _ => for_each body ys' ending)
  end.

End Py.

Import Py.

Notation "'let!' x ':=' m 'in' k" := (Py.bind m (fun x => k))
  (at level 10, x pattern, m at level 100, k at level 200).

Notation "'do!' x ':=' m 'in' k" := (Py.mbind m (fun x => k))
  (at level 10, x pattern, m at level 100, k at level 200).

(** ** The third-party BibTeX library (bibtexparser 1.x)

    The repository imports [customization.getnames] and configures a
    [BibTexWriter]; both are functions of the dependency, embedded here
    from the library's code as far as the repository relies on them.

    [customization.getnames] reads:
<<
    def getnames(names):
        tidynames = []
        for namestring in names:
            namestring = namestring.strip()
            if len(namestring) < 1:
                continue
            if ',' in namestring:
                namesplit = namestring.split(',', 1)
                last = namesplit[0].strip()
                firsts = [i.strip() for i in namesplit[1].split()]
            else:
                namesplit = namestring.split()
                last = namesplit.pop()
                firsts = [i.replace('.', '. ').strip() for i in namesplit]
            if last in ['jnr', 'jr', 'junior']:
                last = firsts.pop()
            for item in firsts:
                if item in ['ben', 'van', 'der', 'de', 'la', 'le']:
                    last = firsts.pop() + ' ' + last
            tidynames.append(last + ", " + ' '.join(firsts))
        return tidynames
>>
    and the writer orders the entries it serialises with
<<
    def _entries_to_bibtex(self, bib_database):
        if self.order_entries_by:
            entries = sorted(bib_database.entries,
                             key=lambda x: BibDatabase.entry_sort_key(x, self.order_entries_by))
        else:
            entries = bib_database.entries
        ...
    def entry_sort_key(entry, fields):
        result = []
        for field in fields:
            result.append(str(entry.get(field, '')).lower())
        return tuple(result)
>> *)

Module Bibtexparser.

Definition suffixes : list string := ["jnr"; "jr"; "junior"].
Definition particles : list string := ["ben"; "van"; "der"; "de"; "la"; "le"].

(** [for item in firsts: if item in particles: last = firsts.pop() + ' ' + last]
    The list shrinks while it is iterated: the iterator stops as soon as
    its index reaches the current length. The index grows by one in every
    round, so [length firsts] rounds are enough. *)
Fixpoint particle_loop (fuel i : nat) (firsts : list string) (last : string)
  : list string * string :=
  match fuel with
  | O => (firsts, last)
  | S fuel' =>
      match firsts !! i with
      | None => (firsts, last)
      | Some item =>
          if mem item particles then
            match pop firsts with
            | Ok (firsts', x) =>
                particle_loop fuel' (S i) firsts' (x +:+ " " +:+ last)
            | Raise _ => (firsts, last)
            end
          else particle_loop fuel' (S i) firsts last
      end
  end.

(** One round of the loop of [getnames]: [None] is the [continue] on an
    empty name, [Some tidy] the string appended to the result. *)
Definition tidy_name (namestring : string) : res (option string) :=
  let namestring := strip namestring in
  if (String.length namestring <? 1)%nat then Ok None
  else
    let! (last, firsts) :=
      (if contains "," namestring then
         let namesplit := split_once "," namestring in
         let! l := index namesplit 0 in
         let! r := index namesplit 1 in
         Ok (strip l, map strip (split_ws r))
       else
         let! (namesplit, last) := pop (split_ws namestring) in
         Ok (last, map (fun i => strip (replace "." ". " i)) namesplit)) in
    let! (firsts, last) :=
      (if mem last suffixes then pop firsts else Ok (firsts, last)) in
    let '(firsts, last) := particle_loop (length firsts) 0 firsts last in
    Ok (Some (last +:+ ", " +:+ join " " firsts)).

(** The names on which [tidy_name] fails: a suffix and nothing else, so
    that [firsts.pop()] finds [firsts] empty. Either the name has a
    comma, a suffix in front of it and only white space behind it, or it
    has no comma and is the single word [jnr], [jr] or [junior]. *)
Definition bare_suffix (namestring : string) : bool :=
  let namestring := strip namestring in
  if contains "," namestring then
    match find_sep "," namestring with
    | Some (l, r) =>
        mem (strip l) suffixes && bool_decide (split_ws r = [])
    | None => false
    end
  else
    match split_ws namestring with
    | [word] => mem word suffixes
    | _ => false
    end.

(** [customization.getnames(names)] *)
Fixpoint getnames (names : list string) : res (list string) :=
  match names with
  | [] => Ok []
  | namestring :: rest =>
      let! t := tidy_name namestring in
      let! ts := getnames rest in
      Ok (match t with Some n => n :: ts | None => ts end)
  end.

(** [BibTexWriter]: the attributes the repository sets. *)
Record BibTexWriter : Type := mkWriter {
  indent : string;
  add_trailing_comma : bool;
  order_entries_by : list string;
  display_order : list string
}.

(** [BibDatabase.entry_sort_key(entry, fields)]:
    [tuple(str(entry.get(field, '')).lower() for field in fields)].
    [str.lower] maps the capitals of every script; it is the parameter
    [str_lower], and [Py.lower] is what it does on ASCII strings. *)
Definition entry_sort_key (str_lower : string -> string)
  (entry : gmap string string) (fields : list string) : list string :=
  map (fun field => str_lower (default "" (entry !! field))) fields.

(** Order of two [str]: code points, first difference decides. On UTF-8
    encodings this is the order of the bytes. *)
Fixpoint str_leb (a b : string) : bool :=
  match a, b with
  | EmptyString, _ => true
  | String _ _, EmptyString => false
  | String x a', String y b' =>
      if (nat_of_ascii x <? nat_of_ascii y)%nat then true
      else if (nat_of_ascii y <? nat_of_ascii x)%nat then false
      else str_leb a' b'
  end.

(** Order of two tuples of [str]. *)
Fixpoint key_leb (k1 k2 : list string) : bool :=
  match k1, k2 with
  | [], _ => true
  | _ :: _, [] => false
  | a :: k1', b :: k2' =>
      if String.eqb a b then key_leb k1' k2' else str_leb a b
  end.

Fixpoint insert_by {A : Type} (key : A -> list string) (x : A) (l : list A)
  : list A :=
  match l with
  | [] => [x]
  | y :: l' =>
      if key_leb (key x) (key y) then x :: l else y :: insert_by key x l'
  end.

(** [sorted(xs, key=key)]. Python's sort is stable, and a stable sort has
    one possible result; it is computed here by insertion, each element
    going in front of the later elements that are not smaller. *)
Definition sorted {A : Type} (key : A -> list string) (xs : list A) : list A :=
  foldr (insert_by key) [] xs.

(** [BibTexWriter._entries_to_bibtex]: the order in which the entries are
    serialised, one after the other, into the output text. *)
Definition entries_to_bibtex (str_lower : string -> string) (w : BibTexWriter)
  (entries : list (gmap string string)) : list (gmap string string) :=
  match order_entries_by w with
  | [] => entries
  | fields => sorted (fun x => entry_sort_key str_lower x fields) entries
  end.

(** [customization.add_plaintext_fields(record)], on records whose
    values are strings:
<<
    def add_plaintext_fields(record):
        def _strip_string(string):
            for stripped in ['{', '}']:
                string = string.replace(stripped, "")
            return string
        for key in list(record.keys()):
            plain_key = "plain_{}".format(key)
            record[plain_key] = record[key]
            if isinstance(record[plain_key], str):
                record[plain_key] = _strip_string(record[plain_key])
            ...
        return record
>>
    The keys are visited in the order of [map_to_list]; the order of a
    Python dictionary can differ, which shows only when a key of the
    record already starts with [plain_]. *)
Definition strip_string (s : string) : string :=
  replace "}" "" (replace "{" "" s).

Definition add_plaintext_field (record : gmap string string) (key : string)
  : gmap string string :=
  match record !! key with
  | Some v => <["plain_" +:+ key := strip_string v]> record
  | None => record
  end.

Definition add_plaintext_fields (record : gmap string string)
  : gmap string string :=
  fold_left add_plaintext_field (map fst (map_to_list record)) record.

End Bibtexparser.

(** ** bibtex.py *)

Module Bibtex.

Definition PLAIN_PREFIX : string := "plain_".

Record Author : Type := mkAuthor {
  lastname : string;
  firstnames : option string
}.

(** [[author.strip() for author in author.replace("\n", " ").split(" and ")]] *)
Definition name_strings (author : string) : list string :=
  map strip (split_on " and " (replace newline " " author)).

(** [get_authors(author)] *)
Definition get_authors (author : string) : res (list Author) :=
  let authors := name_strings author in
  let! tidy := Bibtexparser.getnames authors in
  mapM (fun author =>
          let split := split_on ", " author in
          let! s0 := index split 0 in
          let! s1 := index split 1 in
          Ok (mkAuthor s0 (Some s1)))
       tidy.

(** [has_field(entry, field)]: [field in entry and entry[field] != ""] *)
Definition has_field (entry : gmap string string) (field : string) : bool :=
  match entry !! field with
  | Some v => negb (String.eqb v "")
  | None => false
  end.

(** Entries are [dict] objects held by reference: a database lists the
    locations of its entries, the store gives the entry at a location. *)
Definition loc : Type := nat.
Definition store : Type := loc -> gmap string string.

Definition update (h : store) (l : loc) (e : gmap string string) : store :=
  fun l' => if Nat.eqb l' l then e else h l'.

Record BibDatabase : Type := mkDatabase { entries : list loc }.

(** [get_entries(db)] *)
Definition get_entries (db : BibDatabase) : list loc := entries db.

(** The module-level [writer] (bibtex.py, lines 18 to 22). *)
Definition writer : Bibtexparser.BibTexWriter :=
  {| Bibtexparser.indent := String (ascii_of_nat 9) EmptyString;
     Bibtexparser.add_trailing_comma := true;
     Bibtexparser.order_entries_by := ["author"; "year"; "title"];
     Bibtexparser.display_order := ["author"; "title"] |}.

(** [remove_plain_fields(entry)] on the dictionary itself. *)
Definition remove_plain_fields (entry : gmap string string) : gmap string string :=
  let to_delete :=
    List.filter (starts_with PLAIN_PREFIX) (map fst (map_to_list entry)) in
  foldr delete entry to_delete.

(** [for entry in database.entries: remove_plain_fields(entry)] *)
Definition strip_plain_all (h : store) (ls : list loc) : store :=
  fold_left (fun h l => update h l (remove_plain_fields (h l))) ls h.

(** [write(database)]: the store after the call, and the entries in the
    order in which the returned text lists them. The text of one entry is
    the writer's business and is not modelled; [str_lower] is the
    [str.lower] of the writer's sort key. *)
Definition write (str_lower : string -> string) (h : store)
  (database : BibDatabase) : store * list (gmap string string) :=
  let h' := strip_plain_all h (entries database) in
  (h', Bibtexparser.entries_to_bibtex str_lower writer (map h' (entries database))).

(** [update_plain_fields(entry)] *)
Definition update_plain_fields (entry : gmap string string) : gmap string string :=
  Bibtexparser.add_plaintext_fields (remove_plain_fields entry).

(** [Author.to_bibtex] *)
Definition to_bibtex (a : Author) : string :=
  match firstnames a with
  | Some first => lastname a +:+ ", " +:+ first
  | None => lastname a
  end.

(** A name part made of one word: not empty, without white space and
    without a comma. *)
Definition one_word (w : string) : bool :=
  negb (String.eqb w EmptyString)
  && all_chars (fun c => negb (isspace c) && negb (Ascii.eqb c ",")) w.

End Bibtex.

Import Bibtex.


(** ** lookup.py *)

Module Lookup.

Definition bytes : Type := list Byte.byte.

(** *** AbstractBaseLookup *)

(** How a request or a read can fail: [socket.timeout], [socket.gaierror],
    or any other exception ([OSError] for a refused connection,
    [HTTPException] for [http.client]'s [IncompleteRead] or
    [BadStatusLine], ...). *)
Inductive socket_error : Type :=
| timeout
| gaierror
| other_error (e : exn).

Inductive read_result : Type :=
| ReadOk (data : bytes)
| ReadFails (err : socket_error).

(** What the server and the network do with one request: no response at
    all, or a status line followed by a body that is read or not. *)
Inductive exchange : Type :=
| NoResponse (err : socket_error)
| Response (status : Z) (body : read_result).

(** What [lookup] does with the connection and with the body. *)
Inductive event : Type :=
| Request
| GetResponse
| Read
| Close
| HandleOutput (data : bytes).

(** The two [except] clauses of [lookup]; any other exception
    propagates as it is. *)
Definition on_socket_error (err : socket_error) : res (option string) :=
  match err with
  | timeout => Ok None
  | gaierror => Ok None
  | other_error e => Raise e
  end.

(** [AbstractBaseLookup.lookup] *)
Definition lookup (ex : exchange) (handle_output : bytes -> res (option string))
  : list event * res (option string) :=
  match ex with
  | NoResponse err => ([Request], on_socket_error err)
  | Response status body =>
      if negb (status =? 200)%Z then ([Request; GetResponse; Close], Ok None)
      else
        match body with
        | ReadFails err => ([Request; GetResponse; Read], on_socket_error err)
        | ReadOk data =>
            ([Request; GetResponse; Read; Close; HandleOutput data],
             handle_output data)
        end
  end.

Definition reads_body (tr : list event) : bool :=
  existsb (fun ev => match ev with Read | HandleOutput _ => true | _ => false end) tr.

(** The class attributes from which a request is built. [USER_AGENT]
    comes from [defs.py] and is a parameter. *)
Record request_attrs : Type := mkAttrs {
  domain : string;
  host : option string;
  headers : gmap string string
}.

Definition default_headers (USER_AGENT : string) : gmap string string :=
  {[ "User-Agent" := USER_AGENT; "Accept" := "application/json" ]}.

(** [get_domain()] *)
Definition get_domain (a : request_attrs) : string := domain a.

(** [get_host()] *)
Definition get_host (a : request_attrs) : string :=
  match host a with
  | Some h => h
  | None => get_domain a
  end.

(** [get_headers()]: a copy of the defaults, updated with the headers of
    the class, then [Host]. *)
Definition get_headers (USER_AGENT : string) (a : request_attrs)
  : gmap string string :=
  <["Host" := get_host a]> (headers a ∪ default_headers USER_AGENT).

(** The specification's success codes: 200 to 299. *)
Definition is_2xx (status : Z) : bool :=
  ((200 <=? status) && (status <=? 299))%Z.

(** *** AbstractSearchLookup *)

Section SearchLookup.

Context {result : Type}.
Variable str_similar : string -> string -> bool.
Variable get_results : bytes -> res (option (list result)).
Variable get_title : result -> option string.
Variable get_value : result -> option string.

(** The [for res in results] loop of [handle_output]. *)
Fixpoint search (entry : gmap string string) (results : list result)
  : res (option string) :=
  match results with
  | [] => Ok None
  | r :: rest =>
      match get_title r with
      | Some title =>
          let! local_title := getitem entry "plain_title" in
          if str_similar title local_title then
            match get_value r with
            | Some value => Ok (Some value)
            | None => search entry rest
            end
          else search entry rest
      | None => search entry rest
      end
  end.

(** [AbstractSearchLookup.handle_output] *)
Definition handle_output (entry : gmap string string) (data : bytes)
  : res (option string) :=
  let! results := get_results data in
  match results with
  | None => Ok None
  | Some rs => search entry rs
  end.

(** What one record contributes when the local title is [local_title]:
    its value, if it has a title similar to the local one and a value. *)
Definition qualifies (local_title : string) (r : result) : option string :=
  match get_title r with
  | Some title => if str_similar title local_title then get_value r else None
  | None => None
  end.

End SearchLookup.

(** From the specification (4.5, search lookup): among the records whose
    score against the local entry is at least the accept threshold, the
    one with the best score (the first of them, on a tie). *)
Fixpoint best_candidate {result : Type} (score : result -> Z) (accept : Z)
  (rs : list result) : option result :=
  match rs with
  | [] => None
  | r :: rest =>
      if (accept <=? score r)%Z then
        match best_candidate score accept rest with
        | Some b => if (score r <? score b)%Z then Some b else Some r
        | None => Some r
        end
      else best_candidate score accept rest
  end.

(** *** AbstractJSONSearchLookup *)

Definition in_range (lo hi : N) (b : Byte.byte) : bool :=
  ((lo <=? Byte.to_N b) && (Byte.to_N b <=? hi))%N.

Definition continuation (b : Byte.byte) : bool := in_range 0x80 0xBF b.

(** Well-formed UTF-8, as the strict decoder accepts it. *)
Fixpoint utf8_valid (data : bytes) : bool :=
  match data with
  | [] => true
  | b0 :: r0 =>
      if in_range 0x00 0x7F b0 then utf8_valid r0
      else
        match r0 with
        | [] => false
        | b1 :: r1 =>
            if in_range 0xC2 0xDF b0 then continuation b1 && utf8_valid r1
            else
              match r1 with
              | [] => false
              | b2 :: r2 =>
                  if in_range 0xE0 0xEF b0 then
                    (if in_range 0xE0 0xE0 b0 then in_range 0xA0 0xBF b1
                     else if in_range 0xED 0xED b0 then in_range 0x80 0x9F b1
                     else continuation b1)
                    && continuation b2 && utf8_valid r2
                  else
                    match r2 with
                    | [] => false
                    | b3 :: r3 =>
                        if in_range 0xF0 0xF4 b0 then
                          (if in_range 0xF0 0xF0 b0 then in_range 0x90 0xBF b1
                           else if in_range 0xF4 0xF4 b0 then in_range 0x80 0x8F b1
                           else continuation b1)
                          && continuation b2 && continuation b3 && utf8_valid r3
                        else false
                    end
              end
        end
  end.

(** [data.decode()] *)
Definition decode (data : bytes) : res string :=
  if utf8_valid data then Ok (string_of_list_byte data)
  else Raise UnicodeDecodeError.

Section JSONSearchLookup.

Context {json result : Type}.
(** [JSONDecoder().decode]: raises [JSONDecodeError] on text that is not
    JSON. *)
Variable json_decode : string -> res json.
Variable get_results_json : json -> res (option (list result)).

(** [AbstractJSONSearchLookup.get_results]: the [except] clause catches
    [JSONDecodeError] and nothing else. *)
Definition get_results (data : bytes) : res (option (list result)) :=
  match (let! text := decode data in json_decode text) with
  | Ok data => get_results_json data
  | Raise JSONDecodeError => Ok None
  | Raise e => Raise e
  end.

End JSONSearchLookup.

(** *** AbstractMultipleLookup *)

Record instance : Type := mkInstance {
  entry : gmap string string;
  title : slot (option string);
  author : slot (option string)
}.

(** [__init__] sets [self.entry]; [title] and [author] are annotated in
    the class body and bound by nothing. *)
Definition init (entry : gmap string string) : instance :=
  mkInstance entry Missing Missing.

(** One call of [self.lookup()]: [self.title] and [self.author] as the
    call finds them. *)
Definition shot : Type := slot (option string) * slot (option string).

Record state : Type := mkState {
  self : instance;
  log : list shot
}.

Definition max_search_queries_default : Z := 10.
Definition author_join_default : string := " ".

Section MultipleLookup.

Variable author_join : string.
Variable max_search_queries : Z.
(** The answer of [self.lookup()] to a call, given the calls made before. *)
Variable net : list shot -> shot -> res (option string).

Definition set_title (v : option string) : M state unit :=
  modify (fun st =>
    mkState (mkInstance (entry (self st)) (Bound v) (author (self st))) (log st)).

Definition set_author (v : option string) : M state unit :=
  modify (fun st =>
    mkState (mkInstance (entry (self st)) (title (self st)) (Bound v)) (log st)).

Definition read_title : M state (option string) :=
  fun st => (st, getattr "title" (title (self st))).

Definition read_author : M state (option string) :=
  fun st => (st, getattr "author" (author (self st))).

(** [self.lookup()] *)
Definition do_lookup : M state (option string) :=
  fun st =>
    let s := (title (self st), author (self st)) in
    (mkState (self st) (log st ++ [s]), net (log st) s).

(** The loop over single authors: [Some v] is [return v] from inside the
    loop, [None] the end of the loop, by exhaustion or by [break]. *)
Fixpoint one_author_loop (authors : list Author) (queries : Z)
  : M state (option string) :=
  match authors with
  | [] => ret None
  | author :: rest =>
      do! _ := set_author (Some (lastname author)) in
      do! lookup := do_lookup in
      match lookup with
      | Some v => ret (Some v)
      | None =>
          let queries := (queries + 1)%Z in
          if (max_search_queries <? queries)%Z then ret None
          else one_author_loop rest queries
      end
  end.

(** [AbstractMultipleLookup.query] *)
Definition query : M state (option string) :=
  do! e := gets (fun st => entry (self st)) in
  do! _ :=
    (if has_field e "title" then
       do! plain_title := lift (getitem e "plain_title") in
       set_title (Some (strip plain_title))
     else ret tt) in
  do! authors :=
    (if has_field e "author" then
       do! plain_author := lift (getitem e "plain_author") in
       do! authors := lift (get_authors plain_author) in
       do! _ := set_author (Some (join author_join (map lastname authors))) in
       ret (Bound authors)
     else ret Missing) in
  do! t := read_title in
  do! no_data :=
    (match t with
     | None => do! a := read_author in ret (bool_decide (a = None))
     | Some _ => ret false
     end) in
  if (no_data : bool) then ret None
  else
    do! lookup := do_lookup in
    match lookup with
    | Some v => ret (Some v)
    | None =>
        do! authors := lift (local "authors" authors) in
        do! early :=
          (if (1 <? length authors)%nat then one_author_loop authors 1%Z
           else ret None) in
        match early with
        | Some v => ret (Some v)
        | None =>
            do! _ := set_author None in
            do! t := read_title in
            match t with
            | Some _ => do_lookup
            | None => ret None
            end
        end
    end.

(** The queries that the docstring of the class lists, for the title [t]
    and the authors [authors]: all the last names joined and the title;
    then, when there is more than one author, one last name and the title
    for each of the leading authors, at most [max_search_queries] of them
    (and at least one); then the title alone. *)
Definition query_plan (t : string) (authors : list Author) : list shot :=
  ([(Bound (Some t), Bound (Some (join author_join (map lastname authors))))]
   ++ (if (1 <? length authors)%nat then
         map (fun a => (Bound (Some t), Bound (Some (lastname a))))
             (take (Z.to_nat (Z.max 1 max_search_queries)) authors)
       else [])
   ++ [(Bound (Some t), Bound None)])%list.

(** Going through a plan: each query is made in turn, after the calls
    [made] before it; the first one that finds something, or raises, ends
    the walk and gives its result. *)
Fixpoint first_hit (plan : list shot) (made : list shot)
  : list shot * res (option string) :=
  match plan with
  | [] => (made, Ok None)
  | s :: rest =>
      match net made s with
      | Ok None => first_hit rest (made ++ [s])%list
      | r => ((made ++ [s])%list, r)
      end
  end.

(** A fresh lookup object for [entry], queried once. *)
Definition run_query (entry : gmap string string) : state * res (option string) :=
  query (mkState (init entry) []).

End MultipleLookup.

End Lookup.

Import Lookup.

(** ** autocomplete.py *)

Module Autocomplete.

(** A [BibtexAutocomplete] object: its databases, and the attributes that
    [setattr] has added to it. [hasattr] and [getattr] also see what the
    class body and [object] bind ([progress_doi], [iter_entries],
    [__class__], ...); none of these names starts with a single
    underscore, so that for a private name, as the two that the source
    passes to [memoize], they read [attrs] alone. *)
Record BibtexAutocomplete : Type := mkAutocomplete {
  bibdatabases : list BibDatabase;
  attrs : gmap string Z
}.

Definition setattr (self : BibtexAutocomplete) (name : string) (value : Z)
  : BibtexAutocomplete :=
  mkAutocomplete (bibdatabases self) (<[name := value]> (attrs self)).

(** A method [def f(self) -> int], and a method that may also set
    attributes of [self]. *)
Definition method : Type := BibtexAutocomplete -> Z.
Definition caching_method : Type := BibtexAutocomplete -> BibtexAutocomplete * Z.

(** A name with one leading underscore, as [_total] and [_missing_dois]. *)
Definition private_name (name : string) : bool :=
  match name with
  | String "_" (String c _) => negb (Ascii.eqb c "_")
  | _ => false
  end.

(** [helper(self)], the innermost function of [memoize], for a private
    [attr_name]. *)
Definition helper (attr_name : string) (function : method) : caching_method :=
  fun self =>
    match attrs self !! attr_name with
    | Some cached => (self, cached)
    | None =>
        let value := function self in
        (setattr self attr_name value, value)
    end.

(** [decorator(function)]: its body defines [helper] and ends; there is no
    [return], the call evaluates to [None]. *)
Definition decorator (attr_name : string) (function : method)
  : callable caching_method :=
  let helper := helper attr_name function in
  PyNone.

(** [memoize(attr_name)]: its body defines [decorator] and ends; there is
    no [return], the call evaluates to [None]. *)
Definition memoize (attr_name : string)
  : callable (method -> callable caching_method) :=
  let decorator := decorator attr_name in
  PyNone.

(** The function under [@memoize("_total")]. *)
Definition count_entries_def : method :=
  fun self =>
    fold_left (fun count db => (count + Z.of_nat (length (get_entries db)))%Z)
              (bibdatabases self) 0%Z.

(** [count_entries] as the class body binds it:
    [memoize("_total")(count_entries)]. *)
Definition count_entries : res (callable caching_method) :=
  call (memoize "_total") count_entries_def.

(** The body of the generator [iter_entries]: the two nested loops, then
    [raise StopIteration()]. *)
Definition iter_entries_body (self : BibtexAutocomplete) : generator loc :=
  (concat (map get_entries (bibdatabases self)), Raise StopIteration).

(** [self.iter_entries()] *)
Definition iter_entries (self : BibtexAutocomplete) : generator loc :=
  run_generator (iter_entries_body self).

(** [count_missing(field)], reading the entries in the store [h]. *)
Definition count_missing (h : store) (self : BibtexAutocomplete) (field : string)
  : res Z :=
  let '(ys, ending) := iter_entries self in
  let body (entry : loc) : M Z unit :=
    modify (fun count =>
      if negb (has_field (h entry) field) then (count + 1)%Z else count) in
  match for_each body ys ending 0%Z with
  | (count, Ok _) => Ok count
  | (_, Raise e) => Raise e
  end.

(** A class of [DOI_lookups]: what [lookup(entry).query()] returns, given
    how many queries the run has made before. The lookup classes of
    lookup.py read the entry and never write to it. *)
Definition lookup_class : Type := nat -> gmap string string -> res (option string).

(** A lookup class built on [AbstractMultipleLookup.query]. *)
Definition multiple_lookup (net : nat -> list shot -> shot -> res (option string))
  : lookup_class :=
  fun t entry =>
    snd (run_query author_join_default max_search_queries_default (net t) entry).

Record run : Type := mkRun {
  heap : store;
  queries_made : nat;
  found : Z
}.

(** [for lookup in self.DOI_lookups] on the entry at [l]. *)
Fixpoint try_lookups (lookups : list lookup_class) (l : loc) : M run unit :=
  match lookups with
  | [] => ret tt
  | lookup :: rest =>
      do! entry := gets (fun st => heap st l) in
      do! t := gets queries_made in
      do! _ := modify (fun st => mkRun (heap st) (S (queries_made st)) (found st)) in
      do! res := lift (lookup t entry) in
      match res with
      | Some doi =>
          (* the log line formats entry['ID'] *)
          do! _ := lift (getitem entry "ID") in
          modify (fun st =>
            mkRun (update (heap st) l (<["doi" := doi]> (heap st l)))
                  (queries_made st) (found st + 1)%Z)
      | None => try_lookups rest l
      end
  end.

(** One round of the outer loop of [get_dois]. *)
Definition get_dois_entry (lookups : list lookup_class) (l : loc) : M run unit :=
  do! entry := gets (fun st => heap st l) in
  if has_field entry "doi" then ret tt else try_lookups lookups l.

(** [get_dois()] with [DOI_lookups = lookups]. *)
Definition get_dois (lookups : list lookup_class) (self : BibtexAutocomplete)
  : M run unit :=
  let '(ys, ending) := iter_entries self in
  for_each (get_dois_entry lookups) ys ending.

(** The stores that differ from [h] by DOIs filled in: an entry that has
    a non-empty [doi] in [h] is the same dictionary in [h'], and every
    entry keeps every field other than [doi]. *)
Definition fills_dois_only (h h' : store) : Prop :=
  forall l : loc,
    (has_field (h l) "doi" = true -> h' l = h l) /\
    (forall field : string, field <> "doi" -> h' l !! field = h l !! field).

End Autocomplete.

Import Autocomplete.

(** * Properties *)

(** ** The base lookup and the status code *)

Lemma reads_body_lookup_not_200 status body handle_output :
  status <> 200%Z ->
  lookup (Response status body) handle_output
  = ([Request; GetResponse; Close], Ok None).
Proof.
  intros Hne. unfold lookup.
  destruct (Z.eqb_spec status 200%Z) as [Heq | _]; [contradiction | reflexivity].
Qed.

Lemma lookup_200 body handle_output :
  lookup (Response 200 body) handle_output
  = match body with
    | ReadFails err => ([Request; GetResponse; Read], on_socket_error err)
    | ReadOk data =>
        ([Request; GetResponse; Read; Close; HandleOutput data],
         handle_output data)
    end.
Proof. reflexivity. Qed.

(** C5, as stated, fails: 201 is a 2xx code, and the lookup answers [None]
    without reading the body, whatever the output handler would find. *)
Lemma lookup_created_is_dropped :
  is_2xx 201 = true /\
  lookup (Response 201 (ReadOk [])) (fun _ => Ok (Some "10.1000/182"))
  = ([Request; GetResponse; Close], Ok None).
Proof. split; reflexivity. Qed.

(** C5, amended: a response is dropped (the lookup returns [None] and
    neither reads nor handles the body) exactly when its status is not
    200; on status 200 the body is read, and once read it is handed to
    [handle_output], whose result is the result of the lookup. *)
Theorem lookup_no_response_iff_not_200 (status : Z) (body : read_result)
  (handle_output : bytes -> res (option string)) :
  (reads_body (fst (lookup (Response status body) handle_output)) = false
   <-> status <> 200%Z) /\
  (status <> 200%Z ->
   snd (lookup (Response status body) handle_output) = Ok None) /\
  (status = 200%Z ->
   In Read (fst (lookup (Response status body) handle_output)) /\
   forall data, body = ReadOk data ->
     In (HandleOutput data) (fst (lookup (Response status body) handle_output)) /\
     snd (lookup (Response status body) handle_output) = handle_output data).
Proof.
  destruct (Z.eq_dec status 200%Z) as [-> | Hne].
  - rewrite lookup_200. repeat split.
    + destruct body; simpl; discriminate.
    + intros H. now contradiction H.
    + intros H. now contradiction H.
    + destruct body; simpl; auto.
    + subst body. simpl. auto 10.
    + subst body. reflexivity.
  - rewrite reads_body_lookup_not_200 by assumption. repeat split; try easy.
Qed.

(** ** The dispatcher: memoized counts *)

(** What [helper] would do, had the decorator returned it: the first call
    computes the total and stores it, a second call returns the same. *)
Lemma helper_caches (self : BibtexAutocomplete) :
  attrs self !! "_total" = None ->
  let first := helper "_total" count_entries_def self in
  snd first = count_entries_def self /\
  snd (helper "_total" count_entries_def (fst first)) = snd first.
Proof.
  intros Hfresh. unfold helper. rewrite Hfresh. simpl.
  now rewrite lookup_insert_eq.
Qed.

(** C9: [memoize] and [decorator] return nothing, so the class body applies
    [None] to [count_entries]: the definition of the class raises
    [TypeError], and there is no [count_entries] to call, whatever the
    databases are. *)
Theorem count_entries_is_not_callable :
  memoize "_total" = PyNone /\
  (forall function, decorator "_total" function = PyNone) /\
  count_entries = Raise TypeError.
Proof. repeat split. Qed.

(** ** The dispatcher: iterating the entries *)

Lemma for_each_ending_raises {S A : Type} (body : A -> M S unit) (ys : list A)
  (e : exn) (s : S) :
  raises (snd (for_each body ys (Raise e) s)) = true.
Proof.
  revert s. induction ys as [| y ys IH]; intros s; simpl.
  - reflexivity.
  - unfold mbind. destruct (body y s) as [s' [[] | e']]; simpl; auto.
Qed.

Lemma for_each_total_body {S A : Type} (step : A -> S -> S) (ys : list A)
  (ending : res unit) (s : S) :
  for_each (fun y => modify (step y)) ys ending s
  = (fold_left (fun s y => step y s) ys s, ending).
Proof.
  revert s. induction ys as [| y ys IH]; intros s; simpl.
  - reflexivity.
  - unfold mbind, modify. apply IH.
Qed.

Lemma iter_entries_yields (self : BibtexAutocomplete) :
  iter_entries self
  = (concat (map get_entries (bibdatabases self)), Raise RuntimeError).
Proof. reflexivity. Qed.

(** C10: the generator yields the entries of each database in order, but
    its body then raises [StopIteration], which reaches the consumer as
    [RuntimeError]: exhausting [iter_entries] raises, and so do
    [count_missing] and [get_dois], for every list of databases. *)
Theorem iter_entries_exhaustion_raises (self : BibtexAutocomplete) :
  fst (iter_entries self) = concat (map get_entries (bibdatabases self)) /\
  snd (iter_entries self) = Raise RuntimeError /\
  (forall h field, count_missing h self field = Raise RuntimeError) /\
  (forall lookups st, raises (snd (get_dois lookups self st)) = true).
Proof.
  repeat split.
  - intros h field. unfold count_missing. rewrite iter_entries_yields.
    now rewrite for_each_total_body.
  - intros lookups st. unfold get_dois. rewrite iter_entries_yields.
    apply for_each_ending_raises.
Qed.

(** ** The JSON search lookup and bytes that are not text *)

Section JSONFacts.

Context {json result : Type}.
Variable json_decode : string -> res json.
Variable get_results_json : json -> res (option (list result)).
Variable str_similar : string -> string -> bool.
Variable get_title : result -> option string.
Variable get_value : result -> option string.

(** Text that the JSON decoder refuses: no results, and the lookup
    answers [None]. *)
Lemma get_results_not_json (data : bytes) (text : string) :
  decode data = Ok text ->
  json_decode text = Raise JSONDecodeError ->
  get_results json_decode get_results_json data = Ok None /\
  forall entry,
    handle_output str_similar (get_results json_decode get_results_json)
      get_title get_value entry data = Ok None.
Proof.
  intros Hd Hj. unfold handle_output, get_results.
  rewrite Hd. simpl. rewrite Hj. split; reflexivity.
Qed.

(** C6: the byte string [b"\xff"] does not decode; [data.decode()] raises
    [UnicodeDecodeError], which the [except JSONDecodeError] clause lets
    through: [get_results] raises instead of giving no results, and the
    exception leaves [handle_output] and [lookup]. *)
Theorem get_results_invalid_utf8_raises (entry : gmap string string) :
  decode [Byte.xff] = Raise UnicodeDecodeError /\
  get_results json_decode get_results_json [Byte.xff]
  = Raise UnicodeDecodeError /\
  handle_output str_similar (get_results json_decode get_results_json)
    get_title get_value entry [Byte.xff] = Raise UnicodeDecodeError /\
  snd (lookup (Response 200 (ReadOk [Byte.xff]))
         (handle_output str_similar (get_results json_decode get_results_json)
            get_title get_value entry))
  = Raise UnicodeDecodeError.
Proof. repeat split. Qed.

End JSONFacts.

(** ** The multiple lookup on entries that lack a field *)

Section MissingFields.

Variable author_join : string.
Variable max_search_queries : Z.

(** A title and no author: when the first lookup finds nothing, the read
    of [authors] fails. *)
Lemma query_title_only_unbound (net : list shot -> shot -> res (option string))
  (entry : gmap string string) (plain_title : string) :
  has_field entry "title" = true ->
  has_field entry "author" = false ->
  entry !! "plain_title" = Some plain_title ->
  net [] (Bound (Some (strip plain_title)), Missing) = Ok None ->
  snd (run_query author_join max_search_queries net entry)
  = Raise (UnboundLocalError "authors").
Proof.
  intros Ht Ha Hp Hnet.
  unfold run_query, query, mbind, gets, lift, ret, set_title, modify,
    read_title, do_lookup, getitem, init. simpl.
  rewrite Ht, Ha, Hp. simpl. rewrite Hnet. reflexivity.
Qed.

(** Neither title nor author: the read of [self.title] fails. *)
Lemma query_no_field_attribute_error (net : list shot -> shot -> res (option string))
  (entry : gmap string string) :
  has_field entry "title" = false ->
  has_field entry "author" = false ->
  run_query author_join max_search_queries net entry
  = (mkState (init entry) [], Raise (AttributeError "title")).
Proof.
  intros Ht Ha.
  unfold run_query, query, mbind, gets, lift, ret, read_title, init. simpl.
  rewrite Ht, Ha. reflexivity.
Qed.

End MissingFields.

(** C1: [query] does not survive a missing field. On an entry with a title
    and no author, whose first lookup finds nothing, it stops after that
    one lookup with [UnboundLocalError] on [authors] and never makes the
    title-only query; on an entry with neither field it raises
    [AttributeError] on [self.title] instead of returning [None]. *)
Theorem query_missing_field_raises (author_join : string) (max_search_queries : Z) :
  (let entry : gmap string string :=
     {[ "ID" := "Lam";
        "title" := "Reactive Path Deformation";
        "plain_title" := "Reactive Path Deformation" ]} in
   let out := run_query author_join max_search_queries (fun _ _ => Ok None) entry in
   log (fst out) = [(Bound (Some "Reactive Path Deformation"), Missing)] /\
   snd out = Raise (UnboundLocalError "authors")) /\
  (forall net,
     let entry : gmap string string := {[ "ID" := "Lam" ]} in
     let out := run_query author_join max_search_queries net entry in
     log (fst out) = [] /\ snd out = Raise (AttributeError "title")).
Proof.
  split.
  - split; [reflexivity |].
    apply query_title_only_unbound with (plain_title := "Reactive Path Deformation");
      reflexivity.
  - intros net. simpl.
    rewrite query_no_field_attribute_error by reflexivity. split; reflexivity.
Qed.

(** ** The dispatcher: what [get_dois] writes *)

Lemma fills_dois_only_refl (h : store) : fills_dois_only h h.
Proof. intros l. split; auto. Qed.

Lemma fills_dois_only_trans (h1 h2 h3 : store) :
  fills_dois_only h1 h2 -> fills_dois_only h2 h3 -> fills_dois_only h1 h3.
Proof.
  intros H12 H23 l. destruct (H12 l) as [Hd12 Hf12], (H23 l) as [Hd23 Hf23].
  split.
  - intros Hdoi. pose proof (Hd12 Hdoi) as E. rewrite <- E.
    apply Hd23. now rewrite E.
  - intros field Hne. now rewrite Hf23, Hf12.
Qed.

Lemma update_doi_fills_only (h : store) (l : loc) (doi : string) :
  has_field (h l) "doi" = false ->
  fills_dois_only h (update h l (<["doi" := doi]> (h l))).
Proof.
  intros Hno l'. unfold update.
  destruct (Nat.eqb_spec l' l) as [-> | Hne].
  - split.
    + intros Hyes. congruence.
    + intros field Hfield. now rewrite lookup_insert_ne.
  - split; auto.
Qed.

Lemma try_lookups_fills_only (lookups : list lookup_class) (l : loc) (st : run) :
  has_field (heap st l) "doi" = false ->
  fills_dois_only (heap st) (heap (fst (try_lookups lookups l st))).
Proof.
  revert st. induction lookups as [| lookup rest IH]; intros st Hno; simpl.
  - apply fills_dois_only_refl.
  - unfold mbind, gets, modify, lift. simpl.
    destruct (lookup (queries_made st) (heap st l)) as [[doi |] | e]; simpl.
    + destruct (getitem (heap st l) "ID") as [id | e]; simpl.
      * now apply update_doi_fills_only.
      * apply fills_dois_only_refl.
    + apply (IH (mkRun (heap st) (S (queries_made st)) (found st))).
      exact Hno.
    + apply fills_dois_only_refl.
Qed.

Lemma get_dois_entry_fills_only (lookups : list lookup_class) (l : loc) (st : run) :
  fills_dois_only (heap st) (heap (fst (get_dois_entry lookups l st))).
Proof.
  unfold get_dois_entry, mbind, gets. simpl.
  destruct (has_field (heap st l) "doi") eqn:Hdoi.
  - apply fills_dois_only_refl.
  - now apply try_lookups_fills_only.
Qed.

Lemma for_each_preserves {S A : Type} (R : S -> S -> Prop) (body : A -> M S unit)
  (ys : list A) (ending : res unit) :
  (forall s, R s s) ->
  (forall s1 s2 s3, R s1 s2 -> R s2 s3 -> R s1 s3) ->
  (forall y s, R s (fst (body y s))) ->
  forall s, R s (fst (for_each body ys ending s)).
Proof.
  intros Hrefl Htrans Hbody.
  induction ys as [| y ys IH]; intros s; simpl.
  - apply Hrefl.
  - unfold mbind. pose proof (Hbody y s) as Hy.
    destruct (body y s) as [s' [[] | e]]; simpl in *.
    + eapply Htrans; [exact Hy | apply IH].
    + exact Hy.
Qed.

Lemma get_dois_fills_only (lookups : list lookup_class) (self : BibtexAutocomplete)
  (st : run) :
  fills_dois_only (heap st) (heap (fst (get_dois lookups self st))).
Proof.
  unfold get_dois. rewrite iter_entries_yields.
  apply (for_each_preserves (fun s s' => fills_dois_only (heap s) (heap s'))).
  - intros s. apply fills_dois_only_refl.
  - intros s1 s2 s3. apply fills_dois_only_trans.
  - intros y s. apply get_dois_entry_fills_only.
Qed.

(** C7: whatever the lookups answer, and wherever the run stops, [get_dois]
    leaves the [ID] of every entry as it was, leaves an entry that had a
    non-empty [doi] exactly as it was, and changes no field other than
    [doi] in any entry. *)
Theorem get_dois_frame (lookups : list lookup_class) (self : BibtexAutocomplete)
  (st : run) (l : loc) :
  heap (fst (get_dois lookups self st)) l !! "ID" = heap st l !! "ID" /\
  (has_field (heap st l) "doi" = true ->
   heap (fst (get_dois lookups self st)) l = heap st l) /\
  (forall field : string, field <> "doi" ->
   heap (fst (get_dois lookups self st)) l !! field = heap st l !! field).
Proof.
  destruct (get_dois_fills_only lookups self st l) as [Hdoi Hfield].
  repeat split.
  - now apply Hfield.
  - exact Hdoi.
  - exact Hfield.
Qed.

(** A run with two lookup classes built on [query]: the first finds
    nothing, the second answers its title-only query. The entry without
    [doi] gets the DOI, the entry with a [doi] is skipped. *)
Example get_dois_with_query :
  let e0 : gmap string string :=
    {[ "ID" := "Lam"; "title" := "Path"; "plain_title" := "Path";
       "author" := "Ann Lee"; "plain_author" := "Ann Lee" ]} in
  let e1 : gmap string string := {[ "ID" := "Seg"; "doi" := "10.1/old" ]} in
  let h : store := fun l => match l with O => e0 | _ => e1 end in
  let silent : lookup_class := multiple_lookup (fun _ _ _ => Ok None) in
  let by_title : lookup_class :=
    multiple_lookup (fun _ _ s =>
      match snd s with
      | Bound None => Ok (Some "10.1/new")
      | _ => Ok None
      end) in
  let out := get_dois [silent; by_title] (mkAutocomplete [mkDatabase [0; 1]] ∅)
               (mkRun h 0 0%Z) in
  heap (fst out) 0 = <["doi" := "10.1/new"]> e0 /\
  heap (fst out) 1 = e1 /\
  found (fst out) = 1%Z /\
  snd out = Raise RuntimeError.
Proof. vm_compute. repeat split. Qed.

(** A run that fills one DOI: the entry without [doi] gets it, the entry
    with a [doi] is skipped. *)
Example get_dois_fills_one :
  let e0 : gmap string string := {[ "ID" := "Lam"; "title" := "T" ]} in
  let e1 : gmap string string := {[ "ID" := "Seg"; "doi" := "10.1/old" ]} in
  let h : store := fun l => match l with O => e0 | _ => e1 end in
  let self := mkAutocomplete [mkDatabase [0; 1]] ∅ in
  let out := get_dois [fun _ _ => Ok None; fun _ _ => Ok (Some "10.1/new")]
               self (mkRun h 0 0%Z) in
  heap (fst out) 0 = <["doi" := "10.1/new"]> e0 /\
  heap (fst out) 1 = e1 /\
  queries_made (fst out) = 2 /\
  snd out = Raise RuntimeError.
Proof. repeat split. Qed.

(** ** The search lookup: which record is returned *)

Lemma first_some_Some {A B : Type} (f : A -> option B) (xs : list A) (v : B) :
  first_some f xs = Some v <->
  exists pre x post,
    xs = (pre ++ x :: post)%list /\ f x = Some v /\ Forall (fun y => f y = None) pre.
Proof.
  induction xs as [| x xs IH]; simpl.
  - split; [discriminate |].
    intros (pre & y & post & Heq & _). now destruct pre.
  - destruct (f x) as [w |] eqn:Hx.
    + split.
      * intros [= ->]. exists [], x, xs. auto.
      * intros (pre & y & post & Heq & Hy & Hpre).
        destruct pre as [| p pre]; simpl in Heq; injection Heq as -> ->.
        -- congruence.
        -- inversion Hpre; congruence.
    + rewrite IH. split.
      * intros (pre & y & post & -> & Hy & Hpre).
        exists (x :: pre), y, post. auto.
      * intros (pre & y & post & Heq & Hy & Hpre).
        destruct pre as [| p pre]; simpl in Heq; injection Heq as -> ->.
        -- congruence.
        -- inversion Hpre; subst. exists pre, y, post. auto.
Qed.

Lemma first_some_None {A B : Type} (f : A -> option B) (xs : list A) :
  first_some f xs = None <-> Forall (fun y => f y = None) xs.
Proof.
  induction xs as [| x xs IH]; simpl.
  - split; auto.
  - destruct (f x) eqn:Hx.
    + split; [discriminate | intros H; inversion H; congruence].
    + rewrite IH. split; [auto | intros H; now inversion H].
Qed.

Section SearchFacts.

Context {result : Type}.
Variable str_similar : string -> string -> bool.
Variable get_results : bytes -> res (option (list result)).
Variable get_title : result -> option string.
Variable get_value : result -> option string.

Lemma search_first_some (entry : gmap string string) (local_title : string)
  (rs : list result) :
  entry !! "plain_title" = Some local_title ->
  search str_similar get_title get_value entry rs
  = Ok (first_some (qualifies str_similar get_title get_value local_title) rs).
Proof.
  intros Hp. induction rs as [| r rs IH]; simpl.
  - reflexivity.
  - unfold qualifies at 1, getitem. rewrite Hp.
    destruct (get_title r) as [t |]; simpl; [| exact IH].
    destruct (str_similar t local_title); [| exact IH].
    destruct (get_value r); [reflexivity | exact IH].
Qed.

(** C4, amended: on a response whose records are [rs], [handle_output]
    returns the value of the first record, in the order of the response,
    that has a title similar to the local [plain_title] and a value; it
    returns [None] exactly when no record has both. No score is computed
    and no later record is preferred to an earlier one. *)
Theorem handle_output_first_similar (entry : gmap string string)
  (local_title : string) (data : bytes) (rs : list result) :
  entry !! "plain_title" = Some local_title ->
  get_results data = Ok (Some rs) ->
  let out := handle_output str_similar get_results get_title get_value entry data in
  let value := qualifies str_similar get_title get_value local_title in
  (forall v, out = Ok (Some v) <->
     exists pre r post,
       rs = (pre ++ r :: post)%list /\ value r = Some v /\
       Forall (fun r' => value r' = None) pre) /\
  (out = Ok None <-> Forall (fun r => value r = None) rs) /\
  raises out = false.
Proof.
  intros Hp Hr out value. subst out value. unfold handle_output.
  rewrite Hr. simpl. rewrite (search_first_some _ _ _ Hp).
  repeat split.
  - intros [= H]. now apply first_some_Some.
  - intros H. apply first_some_Some in H. now rewrite H.
  - intros [= H]. now apply first_some_None.
  - intros H. apply first_some_None in H. now rewrite H.
Qed.

End SearchFacts.

(** C4, as stated, fails. Two records are similar to the local title
    (equal up to case, score 1 or more), the second one equal to it (score
    2): [handle_output] returns the value of the first, the best-scoring
    candidate is the second. *)
Lemma handle_output_not_best_scoring :
  let records : list (string * string) :=
    [("my paper", "10.1000/first"); ("My Paper", "10.1000/best")] in
  let entry : gmap string string :=
    {[ "ID" := "key"; "title" := "My Paper"; "plain_title" := "My Paper" ]} in
  let similar (a b : string) := String.eqb (lower a) (lower b) in
  let score (r : string * string) : Z :=
    if String.eqb (fst r) "My Paper" then 2%Z
    else if similar (fst r) "My Paper" then 1%Z else 0%Z in
  Forall (fun r => similar (fst r) "My Paper" = true /\ (1 <= score r)%Z) records /\
  handle_output similar (fun _ => Ok (Some records))
    (fun r => Some (fst r)) (fun r => Some (snd r)) entry []
  = Ok (Some "10.1000/first") /\
  option_map snd (best_candidate score 1%Z records) = Some "10.1000/best".
Proof.
  simpl. repeat split.
  - repeat constructor; simpl; lia.
Qed.

Lemma handle_output_first_similar_witness :
  let records : list (string * string) :=
    [("Another paper", "10.1000/other"); ("my paper", "10.1000/first");
     ("My Paper", "10.1000/best")] in
  let entry : gmap string string :=
    {[ "ID" := "key"; "title" := "My Paper"; "plain_title" := "My Paper" ]} in
  let similar (a b : string) := String.eqb (lower a) (lower b) in
  let get_results : bytes -> res (option (list (string * string))) :=
    fun _ => Ok (Some records) in
  let get_title (r : string * string) := Some (fst r) in
  let get_value (r : string * string) := Some (snd r) in
  let out := handle_output similar get_results get_title get_value entry [] in
  let value := qualifies similar get_title get_value "My Paper" in
  (entry !! "plain_title" = Some "My Paper" /\
   get_results [] = Ok (Some records)) /\
  (forall v, out = Ok (Some v) <->
     exists pre r post,
       records = (pre ++ r :: post)%list /\ value r = Some v /\
       Forall (fun r' => value r' = None) pre) /\
  (out = Ok None <-> Forall (fun r => value r = None) records) /\
  raises out = false.
Proof.
  intros records entry similar get_results get_title get_value out value.
  split; [split; reflexivity |].
  apply (handle_output_first_similar similar get_results get_title get_value
           entry "My Paper" [] records); reflexivity.
Defined.

(** ** Writing a database: the order of the entries *)

Lemma str_leb_refl (a : string) : Bibtexparser.str_leb a a = true.
Proof.
  induction a as [| x a IH]; simpl; [reflexivity |].
  now rewrite Nat.ltb_irrefl.
Qed.

Lemma str_leb_total (a b : string) :
  Bibtexparser.str_leb a b = false -> Bibtexparser.str_leb b a = true.
Proof.
  revert b. induction a as [| x a IH]; intros [| y b]; simpl; try easy.
  destruct (Nat.ltb_spec (nat_of_ascii x) (nat_of_ascii y)),
           (Nat.ltb_spec (nat_of_ascii y) (nat_of_ascii x));
    try easy; try lia. apply IH.
Qed.

Lemma str_leb_antisym (a b : string) :
  Bibtexparser.str_leb a b = true -> Bibtexparser.str_leb b a = true -> a = b.
Proof.
  revert b. induction a as [| x a IH]; intros [| y b]; simpl; try easy.
  destruct (Nat.ltb_spec (nat_of_ascii x) (nat_of_ascii y)),
           (Nat.ltb_spec (nat_of_ascii y) (nat_of_ascii x));
    try easy; try lia.
  intros Hab Hba. f_equal; [| now apply IH].
  rewrite <- (ascii_nat_embedding x), <- (ascii_nat_embedding y).
  f_equal. lia.
Qed.

Lemma str_leb_trans (a b c : string) :
  Bibtexparser.str_leb a b = true -> Bibtexparser.str_leb b c = true ->
  Bibtexparser.str_leb a c = true.
Proof.
  revert b c. induction a as [| x a IH]; intros [| y b] [| z c]; simpl; try easy.
  destruct (Nat.ltb_spec (nat_of_ascii x) (nat_of_ascii y)),
           (Nat.ltb_spec (nat_of_ascii y) (nat_of_ascii x)),
           (Nat.ltb_spec (nat_of_ascii y) (nat_of_ascii z)),
           (Nat.ltb_spec (nat_of_ascii z) (nat_of_ascii y)),
           (Nat.ltb_spec (nat_of_ascii x) (nat_of_ascii z)),
           (Nat.ltb_spec (nat_of_ascii z) (nat_of_ascii x));
    try easy; try lia. apply IH.
Qed.

Lemma key_leb_refl (k : list string) : Bibtexparser.key_leb k k = true.
Proof.
  induction k as [| a k IH]; simpl; [reflexivity |].
  now rewrite String.eqb_refl.
Qed.

Lemma key_leb_total (k1 k2 : list string) :
  Bibtexparser.key_leb k1 k2 = false -> Bibtexparser.key_leb k2 k1 = true.
Proof.
  revert k2. induction k1 as [| a k1 IH]; intros [| b k2]; simpl; try easy.
  rewrite (String.eqb_sym b a).
  destruct (String.eqb a b); [apply IH | apply str_leb_total].
Qed.

Lemma key_leb_trans (k1 k2 k3 : list string) :
  Bibtexparser.key_leb k1 k2 = true -> Bibtexparser.key_leb k2 k3 = true ->
  Bibtexparser.key_leb k1 k3 = true.
Proof.
  revert k2 k3.
  induction k1 as [| a k1 IH]; intros [| b k2] [| c k3]; simpl; try easy.
  intros H1 H2.
  destruct (String.eqb_spec a b) as [Eab | Nab],
           (String.eqb_spec b c) as [Ebc | Nbc],
           (String.eqb_spec a c) as [Eac | Nac];
    subst; try congruence.
  - eapply IH; eassumption.
  - exfalso. apply Nab. now apply str_leb_antisym.
  - now apply str_leb_trans with b.
Qed.

Section SortedFacts.

Context {A : Type}.
Variable key : A -> list string.

Let le (x y : A) : Prop := Bibtexparser.key_leb (key x) (key y) = true.

Lemma insert_by_perm (x : A) (l : list A) :
  Permutation (Bibtexparser.insert_by key x l) (x :: l).
Proof.
  induction l as [| y l IH]; simpl; [reflexivity |].
  destruct (Bibtexparser.key_leb (key x) (key y)); [reflexivity |].
  rewrite IH. apply perm_swap.
Qed.

Lemma sorted_perm (l : list A) : Permutation (Bibtexparser.sorted key l) l.
Proof.
  induction l as [| x l IH]; simpl; [reflexivity |].
  unfold Bibtexparser.sorted in *. simpl.
  rewrite insert_by_perm. now constructor.
Qed.

Lemma insert_by_strongly_sorted (x : A) (l : list A) :
  StronglySorted le l -> StronglySorted le (Bibtexparser.insert_by key x l).
Proof.
  induction 1 as [| y l Hs IH Hy]; simpl.
  - repeat constructor.
  - destruct (Bibtexparser.key_leb (key x) (key y)) eqn:Hxy.
    + constructor; [now constructor |].
      constructor; [exact Hxy |].
      eapply Forall_impl; [exact Hy |].
      intros z Hz. unfold le in *. eapply key_leb_trans; eauto.
    + constructor; [exact IH |].
      rewrite insert_by_perm.
      constructor; [| exact Hy]. now apply key_leb_total.
Qed.

Lemma sorted_strongly_sorted (l : list A) :
  StronglySorted le (Bibtexparser.sorted key l).
Proof.
  induction l as [| x l IH]; simpl; [constructor |].
  now apply insert_by_strongly_sorted.
Qed.

Lemma insert_by_stable (k : list string) (x : A) (l : list A) :
  filter (fun e => key e = k) (Bibtexparser.insert_by key x l)
  = filter (fun e => key e = k) (x :: l).
Proof.
  induction l as [| y l IH]; simpl; [reflexivity |].
  destruct (Bibtexparser.key_leb (key x) (key y)) eqn:Hxy; [reflexivity |].
  rewrite !filter_cons in *. rewrite IH.
  destruct (decide (key y = k)) as [Hy | Hy], (decide (key x = k)) as [Hx | Hx];
    try reflexivity.
  rewrite <- Hy in Hx. rewrite Hx, key_leb_refl in Hxy. discriminate.
Qed.

Lemma sorted_stable (k : list string) (l : list A) :
  filter (fun e => key e = k) (Bibtexparser.sorted key l)
  = filter (fun e => key e = k) l.
Proof.
  induction l as [| x l IH]; simpl; [reflexivity |].
  unfold Bibtexparser.sorted in *. simpl.
  rewrite insert_by_stable, !filter_cons. now rewrite IH.
Qed.

Lemma sorted_of_sorted (l : list A) :
  Sorted le l -> Bibtexparser.sorted key l = l.
Proof.
  induction 1 as [| x l Hs IH Hx]; [reflexivity |].
  unfold Bibtexparser.sorted in *. simpl. rewrite IH.
  destruct Hx as [| y l Hxy]; simpl; [reflexivity |].
  unfold le in Hxy. now rewrite Hxy.
Qed.

End SortedFacts.

Lemma lookup_foldr_delete (e : gmap string string) (ks : list string) (k : string) :
  foldr delete e ks !! k = if decide (k ∈ ks) then None else e !! k.
Proof.
  induction ks as [| k' ks IH]; simpl.
  - destruct (decide (k ∈ [])) as [H | _]; [| reflexivity].
    now apply elem_of_nil in H.
  - destruct (decide (k' = k)) as [-> | Hne].
    + rewrite lookup_delete_eq.
      destruct (decide (k ∈ k :: ks)) as [_ | Hn]; [reflexivity |].
      contradiction Hn. apply elem_of_cons. now left.
    + rewrite lookup_delete_ne by exact Hne. rewrite IH.
      destruct (decide (k ∈ ks)) as [Hin | Hin],
               (decide (k ∈ k' :: ks)) as [H | H]; try reflexivity.
      * contradiction H. apply elem_of_cons. now right.
      * apply elem_of_cons in H as [-> | H]; [now contradiction Hne | contradiction].
Qed.

Lemma remove_plain_fields_lookup (e : gmap string string) (k : string) :
  remove_plain_fields e !! k
  = if starts_with PLAIN_PREFIX k then None else e !! k.
Proof.
  unfold remove_plain_fields. rewrite lookup_foldr_delete.
  destruct (decide _) as [Hin | Hin].
  - apply list_elem_of_In, filter_In in Hin as [_ ->]. reflexivity.
  - destruct (starts_with PLAIN_PREFIX k) eqn:Hk; [| reflexivity].
    destruct (e !! k) as [v |] eqn:Hv; [| reflexivity].
    contradiction Hin. apply list_elem_of_In, filter_In. split; [| exact Hk].
    apply in_map_iff. exists (k, v). split; [reflexivity |].
    apply list_elem_of_In. now apply elem_of_map_to_list.
Qed.

Lemma strip_plain_all_lookup (ls : list loc) (h : store) (l : loc) (k : string) :
  strip_plain_all h ls l !! k
  = if existsb (Nat.eqb l) ls && starts_with PLAIN_PREFIX k then None
    else h l !! k.
Proof.
  unfold strip_plain_all.
  pose proof (fun e => remove_plain_fields_lookup e k) as Hrm.
  set (p := starts_with PLAIN_PREFIX k) in *. clearbody p.
  revert h. induction ls as [| a ls IH]; intros h; cbn [fold_left existsb].
  - reflexivity.
  - rewrite IH. unfold update.
    destruct (Nat.eqb_spec l a) as [-> | Hne]; cbn [orb].
    + rewrite Hrm. destruct (existsb (Nat.eqb a) ls), p; reflexivity.
    + reflexivity.
Qed.

(** Whatever [str.lower] does elsewhere, two entries whose authors it
    sends to ["zed, z."] and ["abe, a."] come out swapped. *)
Lemma write_swaps_two_authors (str_lower : string -> string) :
  str_lower "Zed, Z." = "zed, z." ->
  str_lower "Abe, A." = "abe, a." ->
  let first : gmap string string := {[ "ID" := "z2004"; "author" := "Zed, Z." ]} in
  let second : gmap string string := {[ "ID" := "a2020"; "author" := "Abe, A." ]} in
  let h : store := fun l => match l with O => first | _ => second end in
  snd (write str_lower h (mkDatabase [0; 1])) = [second; first].
Proof.
  intros Hz Ha first second h.
  assert (Hm : map (strip_plain_all h (entries (mkDatabase [0; 1])))
                 (entries (mkDatabase [0; 1])) = [first; second])
    by (vm_compute; reflexivity).
  unfold write. cbn [fst snd]. rewrite Hm.
  unfold Bibtexparser.entries_to_bibtex, writer.
  cbn [Bibtexparser.order_entries_by].
  assert (K1 : Bibtexparser.entry_sort_key str_lower first ["author"; "year"; "title"]
               = ["zed, z."; str_lower ""; str_lower ""])
    by (rewrite <- Hz; reflexivity).
  assert (K2 : Bibtexparser.entry_sort_key str_lower second ["author"; "year"; "title"]
               = ["abe, a."; str_lower ""; str_lower ""])
    by (rewrite <- Ha; reflexivity).
  unfold Bibtexparser.sorted. cbn [foldr Bibtexparser.insert_by].
  rewrite K1, K2. reflexivity.
Qed.

(** C2, as stated, fails: the writer is configured to order the entries by
    author, year and title, and two entries whose authors are in the
    opposite order come out swapped. The authors are ASCII text, on which
    [lower] is [str.lower]. *)
Lemma write_reorders_entries :
  let first : gmap string string := {[ "ID" := "z2004"; "author" := "Zed, Z." ]} in
  let second : gmap string string := {[ "ID" := "a2020"; "author" := "Abe, A." ]} in
  let h : store := fun l => match l with O => first | _ => second end in
  snd (write lower h (mkDatabase [0; 1])) = [second; first] /\
  snd (write lower h (mkDatabase [0; 1])) <> [first; second].
Proof.
  intros first second h.
  assert (E : snd (write lower h (mkDatabase [0; 1])) = [second; first])
    by (vm_compute; reflexivity).
  split; [exact E |]. rewrite E. intros H.
  apply (f_equal (fun es : list (gmap string string) =>
                    match es with e :: _ => e !! "ID" | [] => None end)) in H.
  vm_compute in H. discriminate.
Qed.

(** C2, amended: the entries that [write] emits are the entries of the
    database, each one once per occurrence and without its [plain_]
    fields, arranged in ascending order of the key (author, year, title)
    in lower case, a missing field counting as the empty string; entries
    with the same key keep the order of the input, and the input order is
    the output order only when the input is already in key order. Fields
    other than the [plain_] ones are written as they are. This holds for
    whatever [str.lower] does to the three fields: [str_lower] is any
    function. *)
Theorem write_orders_by_key (str_lower : string -> string) (h : store)
  (database : BibDatabase) :
  let h' := fst (write str_lower h database) in
  let out := snd (write str_lower h database) in
  let key :=
    fun e => Bibtexparser.entry_sort_key str_lower e ["author"; "year"; "title"] in
  let le := fun e1 e2 => Bibtexparser.key_leb (key e1) (key e2) = true in
  Permutation out (map h' (entries database)) /\
  StronglySorted le out /\
  (forall k, filter (fun e => key e = k) out
             = filter (fun e => key e = k) (map h' (entries database))) /\
  (Sorted le (map h' (entries database)) -> out = map h' (entries database)) /\
  (forall l field,
     h' l !! field
     = if existsb (Nat.eqb l) (entries database) && starts_with PLAIN_PREFIX field
       then None else h l !! field).
Proof.
  intros h' out key le.
  assert (Eout : out = Bibtexparser.sorted key (map h' (entries database)))
    by reflexivity.
  assert (Eh : h' = strip_plain_all h (entries database)) by reflexivity.
  clearbody out h'. subst out. repeat split.
  - apply sorted_perm.
  - apply (sorted_strongly_sorted key).
  - intros k. apply sorted_stable.
  - apply (sorted_of_sorted key).
  - intros l field. subst h'. apply strip_plain_all_lookup.
Qed.

(** ** The multiple lookup: order and number of the queries *)

Section QueryPlan.

Variable author_join : string.
Variable max_search_queries : Z.
Variable net : list shot -> shot -> res (option string).

Local Abbreviation first_hit := (first_hit net).
Local Abbreviation one_author_loop := (one_author_loop max_search_queries net).

Lemma first_hit_app (p1 p2 made : list shot) :
  first_hit (p1 ++ p2) made
  = match first_hit p1 made with
    | (made', Ok None) => first_hit p2 made'
    | out => out
    end.
Proof.
  revert made. induction p1 as [| s p1 IH]; intros made; simpl.
  - reflexivity.
  - destruct (net made s) as [[v |] | e]; [reflexivity | apply IH | reflexivity].
Qed.

Lemma first_hit_length (plan made : list shot) :
  (length (fst (first_hit plan made)) <= length made + length plan)%nat.
Proof.
  revert made. induction plan as [| s plan IH]; intros made; simpl.
  - lia.
  - destruct (net made s) as [[v |] | e]; simpl.
    + rewrite length_app. simpl. lia.
    + specialize (IH (made ++ [s])%list). rewrite length_app in IH. simpl in IH. lia.
    + rewrite length_app. simpl. lia.
Qed.

(** The loop over single authors walks the leading authors: with the
    counter at [queries], as many of them as the cap leaves room for, and
    always the first. *)
Lemma one_author_loop_walks (authors : list Author) :
  forall (queries : Z) (st : state),
    let out := one_author_loop authors queries st in
    let n := Z.to_nat (Z.max 1 (max_search_queries - queries + 1)) in
    (log (fst out), snd out)
    = first_hit
        (map (fun a => (title (self st), Bound (Some (lastname a))))
             (take n authors))
        (log st)
    /\ title (self (fst out)) = title (self st).
Proof.
  induction authors as [| a rest IH]; intros queries st out n.
  - subst out. rewrite take_nil. simpl. auto.
  - assert (Hn : n = S (Z.to_nat (Z.max 1 (max_search_queries - queries + 1)) - 1))
      by (subst n; lia).
    rewrite Hn. subst out. cbn [take map Lookup.first_hit Lookup.one_author_loop].
    unfold mbind, set_author, modify, do_lookup. cbn [fst snd self log title author entry].
    destruct (net (log st) (title (self st), Bound (Some (lastname a))))
      as [[v |] | e]; cbn [fst snd self log title].
    + auto.
    + destruct (Z.ltb_spec max_search_queries (queries + 1)) as [Hcap | Hcap].
      * replace (Z.to_nat (Z.max 1 (max_search_queries - queries + 1)) - 1)%nat
          with 0%nat by lia.
        rewrite take_0. simpl. auto.
      * replace (Z.to_nat (Z.max 1 (max_search_queries - queries + 1)) - 1)%nat
          with (Z.to_nat (Z.max 1 (max_search_queries - (queries + 1) + 1))) by lia.
        apply (IH (queries + 1)%Z
                 (mkState (mkInstance (entry (self st)) (title (self st))
                             (Bound (Some (lastname a))))
                          (log st ++ [(title (self st), Bound (Some (lastname a)))]))).
    + auto.
Qed.

Lemma query_plan_length (t : string) (authors : list Author) :
  (Z.of_nat (length (query_plan author_join max_search_queries t authors))
   <= Z.max 1 max_search_queries + 2)%Z.
Proof.
  unfold query_plan. rewrite !length_app. cbn [length].
  destruct (1 <? length authors)%nat.
  - rewrite length_map, length_take. lia.
  - cbn [length]. lia.
Qed.


End QueryPlan.



(** The same run, spelled out: the third lookup (the second single-author
    one) finds the DOI and ends the query. *)
Example query_stops_at_first_hit :
  let entry : gmap string string :=
    {[ "ID" := "key"; "title" := "T"; "plain_title" := " T ";
       "author" := "Ann Lee and Bob Ray and Cy Fox";
       "plain_author" := "Ann Lee and Bob Ray and Cy Fox" ]} in
  let net : list shot -> shot -> res (option string) :=
    fun made _ => if (length made =? 2)%nat then Ok (Some "10.1000/182") else Ok None in
  let out := run_query " " 10%Z net entry in
  log (fst out)
  = [(Bound (Some "T"), Bound (Some "Lee Ray Fox"));
     (Bound (Some "T"), Bound (Some "Lee"));
     (Bound (Some "T"), Bound (Some "Ray"))] /\
  snd out = Ok (Some "10.1000/182").
Proof. vm_compute. split; reflexivity. Qed.

(** ** Parsing the author field *)

Lemma starts_with_append (p s : string) : starts_with p (p +:+ s) = true.
Proof.
  induction p as [| c p IH]; simpl; [reflexivity |].
  now rewrite Ascii.eqb_refl.
Qed.

Lemma find_sep_unfold (sep s : string) :
  find_sep sep s
  = if starts_with sep s then Some (EmptyString, drop_chars (String.length sep) s)
    else
      match s with
      | EmptyString => None
      | String c s' =>
          match find_sep sep s' with
          | Some (a, b) => Some (String c a, b)
          | None => None
          end
      end.
Proof. destruct s; reflexivity. Qed.

Lemma find_sep_append (sep a b : string) :
  is_Some (find_sep sep (a +:+ sep +:+ b)).
Proof.
  induction a as [| c a IH].
  - change (EmptyString +:+ sep +:+ b) with (sep +:+ b).
    rewrite find_sep_unfold, starts_with_append. eauto.
  - change (String c a +:+ sep +:+ b) with (String c (a +:+ sep +:+ b)).
    rewrite find_sep_unfold.
    destruct (starts_with sep (String c (a +:+ sep +:+ b))); [eauto |].
    destruct IH as [[x y] ->]. eauto.
Qed.

Lemma length_append (a b : string) :
  String.length (a +:+ b) = (String.length a + String.length b)%nat.
Proof. induction a as [| c a IH]; simpl; [reflexivity | now rewrite IH]. Qed.

Lemma append_cons (c : ascii) (a b : string) :
  String c a +:+ b = String c (a +:+ b).
Proof. reflexivity. Qed.

Lemma starts_with_drop (p s : string) :
  starts_with p s = true -> s = p +:+ drop_chars (String.length p) s.
Proof.
  revert s. induction p as [| a p IH]; intros [| b s]; simpl; try easy.
  intros [Hab Hps]%andb_true_iff. apply Ascii.eqb_eq in Hab as ->.
  rewrite append_cons. f_equal. now apply IH.
Qed.

(** [find_sep] cuts [s] at an occurrence of [sep]. *)
Lemma find_sep_cut (sep s a b : string) :
  find_sep sep s = Some (a, b) -> s = a +:+ sep +:+ b.
Proof.
  revert a b. induction s as [| c s IH]; intros a b; rewrite find_sep_unfold.
  - destruct (starts_with sep EmptyString) eqn:Hs; [| discriminate].
    intros [= <- <-]. now apply starts_with_drop.
  - destruct (starts_with sep (String c s)) eqn:Hs.
    + intros [= <- <-]. now apply starts_with_drop.
    + destruct (find_sep sep s) as [[a' b'] |]; [| discriminate].
      intros [= <- <-]. rewrite append_cons. f_equal. now apply IH.
Qed.

(** The rounds of [split_on] are enough: with a separator that is not
    empty, more rounds give the same pieces. *)
Lemma split_aux_enough (sep : string) (fuel extra : nat) (s : string) :
  sep <> EmptyString ->
  (String.length s <= fuel)%nat ->
  split_aux (fuel + extra) sep s = split_aux fuel sep s.
Proof.
  intros Hsep. revert s. induction fuel as [| fuel IH]; intros s Hlen.
  - destruct s; [| simpl in Hlen; lia].
    destruct extra; [reflexivity |]. cbn [Nat.add split_aux].
    rewrite find_sep_unfold. destruct sep; [contradiction | reflexivity].
  - cbn [Nat.add split_aux].
    destruct (find_sep sep s) as [[a b] |] eqn:Hcut; [| reflexivity].
    f_equal. apply IH.
    apply find_sep_cut in Hcut. subst s. rewrite !length_append in Hlen.
    destruct sep; [contradiction |]. simpl in Hlen. lia.
Qed.

Lemma split_aux_nonempty (fuel : nat) (sep s : string) :
  exists x rest, split_aux fuel sep s = x :: rest.
Proof.
  destruct fuel as [| fuel]; simpl; [eauto |].
  destruct (find_sep sep s) as [[a b] |]; eauto.
Qed.

Lemma length_append_cons (a : string) (c : ascii) (r : string) :
  exists n, String.length (a +:+ String c r) = S n.
Proof. destruct a; simpl; eauto. Qed.

(** A string with a comma and a space in it splits in two parts at
    least: [split[0]] and [split[1]] exist. *)
Lemma split_on_comma_space (a b : string) :
  exists x y rest, split_on ", " (a +:+ ", " +:+ b) = x :: y :: rest.
Proof.
  unfold split_on.
  destruct (length_append_cons a "," (" " +:+ b)) as [n Hn].
  change (a +:+ ", " +:+ b) with (a +:+ String "," (" " +:+ b)) in *.
  rewrite Hn. cbn [split_aux].
  change (a +:+ String "," (" " +:+ b)) with (a +:+ ", " +:+ b).
  destruct (find_sep_append ", " a b) as [[x r] ->].
  destruct (split_aux_nonempty n ", " r) as (y & rest & ->). eauto.
Qed.

Lemma lstrip_head (s : string) (c : ascii) (r : string) :
  lstrip s = String c r -> isspace c = false.
Proof.
  induction s as [| d s IH]; simpl; [discriminate |].
  destruct (isspace d) eqn:Hd; [exact IH |].
  intros [= <- _]. exact Hd.
Qed.

Lemma rstrip_head (s : string) (c : ascii) (r : string) :
  isspace c = false -> exists r', rstrip (String c s) = String c r'.
Proof.
  intros Hc. simpl. rewrite Hc. destruct (rstrip s); eauto.
Qed.

(** A stripped string is empty or starts with a character that is not
    white space. *)
Lemma strip_head (s : string) :
  strip s = EmptyString \/
  exists c r, strip s = String c r /\ isspace c = false.
Proof.
  unfold strip. destruct (lstrip s) as [| c r] eqn:Hl.
  - now left.
  - right. pose proof (lstrip_head _ _ _ Hl) as Hc.
    destruct (rstrip_head r c r Hc) as [r' ->]. eauto.
Qed.

Lemma split_ws_aux_nonempty (s cur : string) :
  cur <> EmptyString -> split_ws_aux s cur <> [].
Proof.
  revert cur. induction s as [| c s IH]; intros cur Hcur; simpl.
  - destruct (String.eqb_spec cur EmptyString); [contradiction | discriminate].
  - destruct (isspace c).
    + destruct (String.eqb_spec cur EmptyString); [contradiction | discriminate].
    + apply IH. destruct cur; discriminate.
Qed.

Lemma split_ws_nonempty (c : ascii) (r : string) :
  isspace c = false -> split_ws (String c r) <> [].
Proof.
  intros Hc. unfold split_ws. simpl. rewrite Hc.
  now apply split_ws_aux_nonempty.
Qed.

Lemma pop_snoc {A : Type} (xs : list A) (x : A) :
  pop (xs ++ [x])%list = Ok (xs, x).
Proof. unfold pop. now rewrite last_snoc, removelast_last. Qed.

Lemma pop_nonempty {A : Type} (xs : list A) :
  xs <> [] -> exists ys y, xs = (ys ++ [y])%list /\ pop xs = Ok (ys, y).
Proof.
  intros Hne. apply last_is_Some in Hne as [y Hy].
  apply last_Some in Hy as [ys ->]. exists ys, y. split; [reflexivity |].
  apply pop_snoc.
Qed.

Lemma index_0 {A : Type} (x : A) (xs : list A) : index (x :: xs) 0 = Ok x.
Proof. reflexivity. Qed.

Lemma index_1 {A : Type} (x y : A) (xs : list A) : index (x :: y :: xs) 1 = Ok y.
Proof. reflexivity. Qed.

Lemma particle_loop_pair (fuel i : nat) (firsts : list string) (last : string) :
  exists firsts' last',
    Bibtexparser.particle_loop fuel i firsts last = (firsts', last').
Proof. destruct (Bibtexparser.particle_loop fuel i firsts last); eauto. Qed.

Lemma pop_length {A : Type} (xs ys : list A) (y : A) :
  pop xs = Ok (ys, y) -> length xs = S (length ys).
Proof.
  unfold pop. destruct (last xs) as [x |] eqn:Hlast; [| discriminate].
  apply last_Some in Hlast as [l ->]. rewrite removelast_last.
  intros [= <- <-]. rewrite length_app. simpl. lia.
Qed.

(** The rounds of the particle loop are enough: more rounds give the
    same result. *)
Lemma particle_loop_enough (fuel extra : nat) :
  forall (i : nat) (firsts : list string) (last : string),
    (length firsts <= i + fuel)%nat ->
    Bibtexparser.particle_loop (fuel + extra) i firsts last
    = Bibtexparser.particle_loop fuel i firsts last.
Proof.
  induction fuel as [| fuel IH]; intros i firsts last Hlen.
  - destruct extra; [reflexivity |]. cbn [Nat.add Bibtexparser.particle_loop].
    now rewrite lookup_ge_None_2 by lia.
  - cbn [Nat.add Bibtexparser.particle_loop].
    destruct (firsts !! i) as [item |]; [| reflexivity].
    destruct (mem item Bibtexparser.particles).
    + destruct (pop firsts) as [[firsts' x] | e] eqn:Hpop; [| reflexivity].
      apply IH. apply pop_length in Hpop. lia.
    + apply IH. lia.
Qed.

(** [tidy_name] on a name that is not a bare suffix: nothing for an empty
    name, and otherwise a string with [", "] in it. *)
Lemma tidy_name_ok (n : string) :
  Bibtexparser.bare_suffix n = false ->
  (strip n = EmptyString /\ Bibtexparser.tidy_name n = Ok None) \/
  (strip n <> EmptyString /\
   exists a b, Bibtexparser.tidy_name n = Ok (Some (a +:+ ", " +:+ b))).
Proof.
  unfold Bibtexparser.bare_suffix, Bibtexparser.tidy_name.
  destruct (strip_head n) as [Hn | (c & r & Hn & Hc)]; rewrite Hn.
  - intros _. left. split; reflexivity.
  - intros Hbare. right. split; [discriminate |].
    change (String.length (String c r) <? 1)%nat with false. cbv iota.
    destruct (contains "," (String c r)) eqn:Hcomma.
    + unfold split_once. unfold contains in Hcomma.
      destruct (find_sep "," (String c r)) as [[l r'] |]; [| discriminate].
      rewrite index_0, index_1. cbn [Py.bind].
      destruct (mem (strip l) Bibtexparser.suffixes).
      * cbn [andb] in Hbare. apply bool_decide_eq_false in Hbare.
        destruct (pop_nonempty (map strip (split_ws r'))) as (ys & y & _ & ->).
        { intros E. apply Hbare. now apply map_eq_nil in E. }
        cbn [Py.bind].
        destruct (particle_loop_pair (length ys) 0 ys y) as (f' & l' & ->).
        eauto.
      * cbn [Py.bind].
        destruct (particle_loop_pair (length (map strip (split_ws r'))) 0
                    (map strip (split_ws r')) (strip l)) as (f' & l' & ->).
        eauto.
    + destruct (pop_nonempty (split_ws (String c r)))
        as (ys & y & Hsplit & ->); [now apply split_ws_nonempty |].
      cbn [Py.bind]. rewrite Hsplit in Hbare.
      destruct (mem y Bibtexparser.suffixes) eqn:Hy.
      * destruct ys as [| y0 ys]; [cbn [app] in Hbare; congruence |].
        destruct (pop_nonempty
                    (map (fun i => strip (replace "." ". " i)) (y0 :: ys)))
          as (zs & z & _ & ->); [discriminate |].
        cbn [Py.bind].
        destruct (particle_loop_pair (length zs) 0 zs z) as (f' & l' & ->).
        eauto.
      * cbn [Py.bind].
        destruct (particle_loop_pair
                    (length (map (fun i => strip (replace "." ". " i)) ys)) 0
                    (map (fun i => strip (replace "." ". " i)) ys) y)
          as (f' & l' & ->).
        eauto.
Qed.

(** On a bare suffix [firsts] is empty when it is popped. *)
Lemma tidy_name_bare (n : string) :
  Bibtexparser.bare_suffix n = true ->
  Bibtexparser.tidy_name n = Raise IndexError.
Proof.
  unfold Bibtexparser.bare_suffix, Bibtexparser.tidy_name.
  destruct (strip_head n) as [Hn | (c & r & Hn & Hc)]; rewrite Hn.
  - discriminate.
  - change (String.length (String c r) <? 1)%nat with false. cbv iota.
    destruct (contains "," (String c r)) eqn:Hcomma.
    + unfold split_once. unfold contains in Hcomma.
      destruct (find_sep "," (String c r)) as [[l r'] |]; [| discriminate].
      rewrite index_0, index_1. cbn [Py.bind].
      intros [-> Hempty%bool_decide_eq_true]%andb_true_iff.
      now rewrite Hempty.
    + destruct (pop_nonempty (split_ws (String c r)))
        as (ys & y & Hsplit & ->); [now apply split_ws_nonempty |].
      cbn [Py.bind]. rewrite Hsplit.
      destruct ys as [| y0 [| y1 ys]]; cbn [app]; try discriminate.
      now intros ->.
Qed.

Lemma getnames_ok (names : list string) :
  existsb Bibtexparser.bare_suffix names = false ->
  exists tidy,
    Bibtexparser.getnames names = Ok tidy /\
    Forall (fun t => exists a b, t = a +:+ ", " +:+ b) tidy /\
    length tidy
    = length (List.filter (fun n => negb (String.eqb (strip n) EmptyString)) names).
Proof.
  induction names as [| n names IH]; cbn [existsb Bibtexparser.getnames List.filter].
  - intros _. exists []. auto.
  - intros [Hn Hrest]%orb_false_iff.
    destruct (IH Hrest) as (tidy & -> & Hshape & Hlen).
    destruct (tidy_name_ok n Hn) as [[Hempty ->] | [Hne (a & b & ->)]];
      cbn [Py.bind].
    + exists tidy. rewrite Hempty. auto.
    + exists ((a +:+ ", " +:+ b) :: tidy).
      destruct (String.eqb_spec (strip n) EmptyString); [contradiction |].
      repeat split; [| cbn [negb length]; now rewrite Hlen].
      constructor; eauto.
Qed.

Lemma getnames_bare (names : list string) :
  existsb Bibtexparser.bare_suffix names = true ->
  Bibtexparser.getnames names = Raise IndexError.
Proof.
  induction names as [| n names IH]; cbn [existsb Bibtexparser.getnames].
  - discriminate.
  - destruct (Bibtexparser.bare_suffix n) eqn:Hn; cbn [orb].
    + intros _. now rewrite (tidy_name_bare n Hn).
    + intros Hrest. rewrite (IH Hrest).
      destruct (tidy_name_ok n Hn) as [[_ ->] | [_ (a & b & ->)]]; reflexivity.
Qed.

(** C8: the author field [jr], a well-formed string, makes [get_authors]
    raise. The name tidying takes the word before a suffix ([jnr], [jr],
    [junior]) for the last name; when the suffix is the whole name there
    is no such word, [firsts.pop()] pops an empty list, and the
    [IndexError] leaves [get_authors]. The same happens when any one name
    of the field is a bare suffix. *)
Theorem get_authors_bare_suffix_raises :
  get_authors "jr" = Raise IndexError /\
  get_authors "Davis, Sammy and jr" = Raise IndexError.
Proof. split; reflexivity. Qed.

(** Every tidied name has [split[0]] and [split[1]]: the loop of
    [get_authors] goes through. *)
Lemma get_authors_of_tidy (author : string) (tidy : list string) :
  Bibtexparser.getnames (name_strings author) = Ok tidy ->
  Forall (fun t => exists a b, t = a +:+ ", " +:+ b) tidy ->
  exists authors,
    get_authors author = Ok authors /\
    length authors = length tidy /\
    Forall (fun a => is_Some (firstnames a)) authors.
Proof.
  intros Htidy Hshape. unfold get_authors. rewrite Htidy. cbn [Py.bind].
  clear Htidy.
  induction Hshape as [| t tidy (a & b & ->) _ (authors & IH & Hlen & Hfirst)].
  - exists []. auto.
  - cbn [mapM].
    destruct (split_on_comma_space a b) as (x & y & rest & ->).
    rewrite index_0, index_1. cbn [Py.bind]. rewrite IH. cbn [Py.bind].
    exists (mkAuthor x (Some y) :: authors). repeat split.
    + cbn [length]. now rewrite Hlen.
    + constructor; [now exists y | exact Hfirst].
Qed.

(** X21: on an ASCII author field [get_authors] raises exactly when one
    of the names of the field is a bare suffix; no other ASCII author
    field makes it fail. (Outside ASCII Python strips further white
    space, U+00A0 among it, which the string methods here leave in
    place.) *)
Theorem get_authors_raises_iff (author : string) :
  is_ascii author = true ->
  raises (get_authors author)
  = existsb Bibtexparser.bare_suffix (name_strings author).
Proof.
  intros _.
  destruct (existsb Bibtexparser.bare_suffix (name_strings author)) eqn:Hbare.
  - unfold get_authors. now rewrite (getnames_bare _ Hbare).
  - destruct (getnames_ok _ Hbare) as (tidy & Htidy & Hshape & _).
    destruct (get_authors_of_tidy author tidy Htidy Hshape) as (authors & -> & _).
    reflexivity.
Qed.

Lemma get_authors_raises_iff_witness :
  is_ascii "Davis, Sammy and jr" = true /\
  raises (get_authors "Davis, Sammy and jr")
  = existsb Bibtexparser.bare_suffix (name_strings "Davis, Sammy and jr").
Proof.
  split; [reflexivity |].
  apply (get_authors_raises_iff "Davis, Sammy and jr"). reflexivity.
Defined.

(** X20: everywhere else the claim holds on ASCII text: for every ASCII
    author field none of whose names (the parts between [" and "]) is a
    bare suffix, [get_authors] returns without raising: one [Author] for
    each name that is not empty, each with a last name and with first
    names that are a string, possibly empty and never [None]. *)
Theorem get_authors_returns (author : string) :
  is_ascii author = true ->
  existsb Bibtexparser.bare_suffix (name_strings author) = false ->
  exists authors,
    get_authors author = Ok authors /\
    length authors
    = length (List.filter (fun n => negb (String.eqb (strip n) EmptyString))
                (name_strings author)) /\
    Forall (fun a => is_Some (firstnames a)) authors.
Proof.
  intros _ Hbare.
  destruct (getnames_ok _ Hbare) as (tidy & Htidy & Hshape & Hcount).
  destruct (get_authors_of_tidy author tidy Htidy Hshape)
    as (authors & Hauthors & Hlen & Hfirst).
  exists authors. rewrite <- Hcount. auto.
Qed.

Lemma get_authors_returns_witness :
  (is_ascii "Peter Muller 0001 and Plato and Lewis, C. S." = true /\
   existsb Bibtexparser.bare_suffix
     (name_strings "Peter Muller 0001 and Plato and Lewis, C. S.") = false) /\
  exists authors,
    get_authors "Peter Muller 0001 and Plato and Lewis, C. S." = Ok authors /\
    length authors
    = length (List.filter (fun n => negb (String.eqb (strip n) EmptyString))
                (name_strings "Peter Muller 0001 and Plato and Lewis, C. S.")) /\
    Forall (fun a => is_Some (firstnames a)) authors.
Proof.
  split; [split; reflexivity |].
  apply (get_authors_returns "Peter Muller 0001 and Plato and Lewis, C. S.");
    reflexivity.
Defined.

(** The three kinds of names of the data model: first name first, no first
    name, and a numeric disambiguator at the end, which is not removed but
    taken for the last name. *)
Example get_authors_examples :
  get_authors "John Jones" = Ok [mkAuthor "Jones" (Some "John")] /\
  get_authors "Plato" = Ok [mkAuthor "Plato" (Some "")] /\
  get_authors "Peter Muller 0001 and Joakim von Wright"
  = Ok [mkAuthor "0001" (Some "Peter Muller"); mkAuthor "Wright" (Some "Joakim von")] /\
  get_authors "Lewis, C. S. and Douglas Adams"
  = Ok [mkAuthor "Lewis" (Some "C. S."); mkAuthor "Adams" (Some "Douglas")] /\
  get_authors "" = Ok [].
Proof. repeat split. Qed.

(** * Further properties *)

(** ** The dispatcher: counting and iterating *)

Lemma count_entries_fold (dbs : list BibDatabase) (count : Z) :
  fold_left (fun count db => (count + Z.of_nat (length (get_entries db)))%Z)
    dbs count
  = (count + Z.of_nat (length (concat (map get_entries dbs))))%Z.
Proof.
  revert count. induction dbs as [| db dbs IH]; intros count; simpl.
  - lia.
  - rewrite IH, length_app. lia.
Qed.

(** X1: the total that [count_entries] computes is the number of entries
    that [iter_entries] yields: empty databases add nothing, and an entry
    listed twice is counted twice. *)
Theorem count_entries_counts_iterated (self : BibtexAutocomplete) :
  count_entries_def self = Z.of_nat (length (fst (iter_entries self))).
Proof.
  unfold count_entries_def. rewrite count_entries_fold, iter_entries_yields.
  simpl. lia.
Qed.

(** X2: for a private attribute name (one leading underscore, as [_total]
    and [_missing_dois]) [helper] never recomputes. Whatever the first
    call returns, a later call on the same object returns it again, also
    when the databases of the object have been replaced in between: the
    cached attribute is never invalidated. *)
Theorem helper_keeps_first_value (attr_name : string) (function : method)
  (self : BibtexAutocomplete) (dbs' : list BibDatabase) :
  private_name attr_name = true ->
  let first := helper attr_name function self in
  let later := helper attr_name function (mkAutocomplete dbs' (attrs (fst first))) in
  snd later = snd first /\
  attrs (fst later) = attrs (fst first) /\
  attrs (fst first) !! attr_name = Some (snd first).
Proof.
  intros _.
  unfold helper. destruct (attrs self !! attr_name) as [cached |] eqn:Hattr; simpl.
  - rewrite Hattr. auto.
  - rewrite lookup_insert_eq. auto.
Qed.

Lemma helper_keeps_first_value_witness :
  let self := mkAutocomplete [mkDatabase [0; 1]%nat] ∅ in
  let first := helper "_total" count_entries_def self in
  let later := helper "_total" count_entries_def (mkAutocomplete [] (attrs (fst first))) in
  private_name "_total" = true /\
  snd first = 2%Z /\
  snd later = snd first /\
  attrs (fst later) = attrs (fst first) /\
  attrs (fst first) !! "_total" = Some (snd first).
Proof.
  intros self first later.
  split; [reflexivity |]. split; [reflexivity |].
  apply (helper_keeps_first_value "_total" count_entries_def self []).
  reflexivity.
Defined.

(** ** The dispatcher: the queries of [get_dois] *)

Lemma try_lookups_skip (pre : list lookup_class) :
  forall (rest : list lookup_class) (l : loc) (st : run),
    (forall i lk, pre !! i = Some lk ->
       lk (queries_made st + i)%nat (heap st l) = Ok None) ->
    try_lookups (pre ++ rest) l st
    = try_lookups rest l
        (mkRun (heap st) (queries_made st + length pre) (found st)).
Proof.
  induction pre as [| lk pre IH]; intros rest l st Hnone.
  - simpl. rewrite Nat.add_0_r. now destruct st.
  - cbn [app try_lookups]. unfold mbind at 1 2 3 4, gets, modify, lift.
    cbn [fst snd heap queries_made found].
    pose proof (Hnone 0%nat lk eq_refl) as H0. rewrite Nat.add_0_r in H0.
    rewrite H0. rewrite IH.
    + cbn [heap queries_made found length]. do 2 f_equal. lia.
    + intros i lk' Hi. cbn [heap queries_made].
      replace (S (queries_made st) + i)%nat with (queries_made st + S i)%nat by lia.
      now apply (Hnone (S i)).
Qed.

Lemma try_lookups_queries (lookups : list lookup_class) (l : loc) :
  forall st : run,
    (queries_made st <= queries_made (fst (try_lookups lookups l st))
     <= queries_made st + length lookups)%nat.
Proof.
  induction lookups as [| lk rest IH]; intros st; simpl; [lia |].
  unfold mbind, gets, modify, lift. simpl.
  destruct (lk (queries_made st) (heap st l)) as [[doi |] | e]; simpl.
  - destruct (getitem (heap st l) "ID"); simpl; lia.
  - specialize (IH (mkRun (heap st) (S (queries_made st)) (found st))).
    simpl in IH. lia.
  - lia.
Qed.

Lemma for_each_get_dois_queries (lookups : list lookup_class) (ys : list loc)
  (ending : res unit) :
  forall st : run,
    (queries_made st
     <= queries_made (fst (for_each (get_dois_entry lookups) ys ending st))
     <= queries_made st + length ys * length lookups)%nat.
Proof.
  induction ys as [| y ys IH]; intros st; simpl; [lia |].
  unfold mbind.
  assert (Hy : (queries_made st
                <= queries_made (fst (get_dois_entry lookups y st))
                <= queries_made st + length lookups)%nat).
  { unfold get_dois_entry, mbind, gets. simpl.
    destruct (has_field (heap st y) "doi"); simpl; [lia |].
    apply try_lookups_queries. }
  destruct (get_dois_entry lookups y st) as [st' [[] | e]]; simpl in *.
  - specialize (IH st'). lia.
  - lia.
Qed.

(** X3: the number of queries of [get_dois], however the queries answer.
    One round of its outer loop makes no query on an entry that has a
    non-empty [doi], and on any other entry at most as many queries as
    there are lookup classes; a whole run makes at most that many queries
    for each listed entry. *)
Theorem get_dois_query_bound (lookups : list lookup_class)
  (self : BibtexAutocomplete) (st : run) :
  (forall (l : loc) (st' : run),
     (has_field (heap st' l) "doi" = true ->
      get_dois_entry lookups l st' = (st', Ok tt)) /\
     (queries_made st'
      <= queries_made (fst (get_dois_entry lookups l st'))
      <= queries_made st' + length lookups)%nat) /\
  (queries_made st
   <= queries_made (fst (get_dois lookups self st))
   <= queries_made st
      + length (concat (map get_entries (bibdatabases self))) * length lookups)%nat.
Proof.
  split.
  - intros l st'. unfold get_dois_entry, mbind, gets. cbn [fst snd].
    destruct (has_field (heap st' l) "doi").
    + split; [reflexivity |]. cbn [fst ret]. lia.
    + split; [discriminate |]. apply try_lookups_queries.
  - unfold get_dois. rewrite iter_entries_yields.
    apply for_each_get_dois_queries.
Qed.

Lemma for_each_all_have_doi (lookups : list lookup_class) (ys : list loc)
  (ending : res unit) (st : run) :
  Forall (fun l => has_field (heap st l) "doi" = true) ys ->
  for_each (get_dois_entry lookups) ys ending st = (st, ending).
Proof.
  induction 1 as [| y ys Hy _ IH]; cbn [for_each]; [reflexivity |].
  unfold mbind at 1, get_dois_entry at 1, mbind at 1, gets.
  cbn [fst snd]. rewrite Hy. unfold ret. exact IH.
Qed.

(** X4: when every listed entry already has a non-empty [doi], [get_dois]
    makes no query at all and changes nothing: the store and both
    counters are as before (and the run ends, as always, in the
    [RuntimeError] of the iterator). *)
Theorem get_dois_nothing_to_do (lookups : list lookup_class)
  (self : BibtexAutocomplete) (st : run) :
  Forall (fun l => has_field (heap st l) "doi" = true)
    (concat (map get_entries (bibdatabases self))) ->
  get_dois lookups self st = (st, Raise RuntimeError).
Proof.
  intros Hall. unfold get_dois. rewrite iter_entries_yields.
  now apply for_each_all_have_doi.
Qed.

Lemma get_dois_nothing_to_do_witness :
  let e : gmap string string := {[ "ID" := "Seg"; "doi" := "10.1/old" ]} in
  let st := mkRun (fun _ => e) 0 0%Z in
  let self := mkAutocomplete [mkDatabase [0; 1]; mkDatabase [2]] ∅ in
  let lookups : list lookup_class := [fun _ _ => Ok (Some "10.1/new")] in
  Forall (fun l => has_field (heap st l) "doi" = true)
    (concat (map get_entries (bibdatabases self))) /\
  get_dois lookups self st = (st, Raise RuntimeError).
Proof.
  intros e st self lookups.
  assert (H : Forall (fun l => has_field (heap st l) "doi" = true)
                (concat (map get_entries (bibdatabases self))))
    by (repeat constructor).
  split; [exact H |]. exact (get_dois_nothing_to_do lookups self st H).
Defined.

(** X5: the lookup classes are tried in their order and the first answer
    wins. For an entry without a non-empty [doi] that has an [ID], if the
    classes in front of one class find nothing and that class finds a DOI,
    the DOI is stored in the entry, [found] grows by one, and the classes
    behind it are not queried. *)
Theorem get_dois_entry_first_answer (pre : list lookup_class) (lk : lookup_class)
  (post : list lookup_class) (l : loc) (st : run) (doi id : string) :
  has_field (heap st l) "doi" = false ->
  heap st l !! "ID" = Some id ->
  (forall i lk', pre !! i = Some lk' ->
     lk' (queries_made st + i)%nat (heap st l) = Ok None) ->
  lk (queries_made st + length pre)%nat (heap st l) = Ok (Some doi) ->
  get_dois_entry (pre ++ lk :: post) l st
  = (mkRun (update (heap st) l (<["doi" := doi]> (heap st l)))
           (S (queries_made st + length pre)) (found st + 1)%Z,
     Ok tt).
Proof.
  intros Hdoi Hid Hpre Hlk.
  unfold get_dois_entry, mbind at 1, gets. cbn [fst snd]. rewrite Hdoi.
  rewrite (try_lookups_skip pre (lk :: post) l st Hpre).
  cbn [try_lookups]. unfold mbind, gets, modify, lift, getitem.
  cbn [fst snd heap queries_made found]. rewrite Hlk, Hid. reflexivity.
Qed.

Lemma get_dois_entry_first_answer_witness :
  let e : gmap string string := {[ "ID" := "Lam"; "title" := "Path" ]} in
  let st := mkRun (fun _ => e) 4 0%Z in
  let silent : lookup_class := fun _ _ => Ok None in
  let crossref : lookup_class := fun t _ => if (t =? 5)%nat then Ok (Some "10.1/a") else Ok None in
  let dblp : lookup_class := fun _ _ => Ok (Some "10.1/b") in
  (has_field (heap st 0) "doi" = false /\ heap st 0 !! "ID" = Some "Lam") /\
  get_dois_entry ([silent] ++ crossref :: [dblp]) 0 st
  = (mkRun (update (heap st) 0 (<["doi" := "10.1/a"]> (heap st 0))) 6 1%Z, Ok tt).
Proof.
  intros e st silent crossref dblp. split; [split; reflexivity |].
  apply (get_dois_entry_first_answer [silent] crossref [dblp] 0 st "10.1/a" "Lam").
  - reflexivity.
  - reflexivity.
  - intros [| i] lk' Hi; [now injection Hi as <- | discriminate].
  - reflexivity.
Defined.

(** X6: an entry without [ID] loses the DOI that was found for it: the log
    line reads [entry['ID']] before the DOI is stored, so [get_dois]
    stops with [KeyError] and the entry keeps no [doi]. *)
Theorem get_dois_entry_without_id (pre : list lookup_class) (lk : lookup_class)
  (post : list lookup_class) (l : loc) (st : run) (doi : string) :
  has_field (heap st l) "doi" = false ->
  heap st l !! "ID" = None ->
  (forall i lk', pre !! i = Some lk' ->
     lk' (queries_made st + i)%nat (heap st l) = Ok None) ->
  lk (queries_made st + length pre)%nat (heap st l) = Ok (Some doi) ->
  get_dois_entry (pre ++ lk :: post) l st
  = (mkRun (heap st) (S (queries_made st + length pre)) (found st),
     Raise (KeyError "ID")).
Proof.
  intros Hdoi Hid Hpre Hlk.
  unfold get_dois_entry, mbind at 1, gets. cbn [fst snd]. rewrite Hdoi.
  rewrite (try_lookups_skip pre (lk :: post) l st Hpre).
  cbn [try_lookups]. unfold mbind, gets, modify, lift, getitem.
  cbn [fst snd heap queries_made found]. rewrite Hlk, Hid. reflexivity.
Qed.

Lemma get_dois_entry_without_id_witness :
  let e : gmap string string := {[ "title" := "Path" ]} in
  let st := mkRun (fun _ => e) 0 0%Z in
  let crossref : lookup_class := fun _ _ => Ok (Some "10.1/a") in
  (has_field (heap st 0) "doi" = false /\ heap st 0 !! "ID" = None) /\
  get_dois_entry ([] ++ crossref :: []) 0 st
  = (mkRun (heap st) 1 0%Z, Raise (KeyError "ID")).
Proof.
  intros e st crossref. split; [split; reflexivity |].
  apply (get_dois_entry_without_id [] crossref [] 0 st "10.1/a").
  - reflexivity.
  - reflexivity.
  - intros i lk' Hi. discriminate.
  - reflexivity.
Defined.

(** ** The base lookup: errors, the connection and the headers *)

(** X7: what [lookup] does with the connection. The output handler runs
    only on the body of a status-200 response that was read in full, and
    its result is then the result of the lookup; the connection is closed
    exactly when a response arrived and no error interrupted the lookup;
    a timeout or an address error, before the response or while the body
    is read, gives [None] and leaves the connection open; and an
    exception leaves [lookup] only as the exception, other than these
    two, that broke the exchange, or as what the output handler raised. *)
Theorem lookup_connection_discipline (ex : exchange)
  (handle_output : bytes -> res (option string)) :
  let out := lookup ex handle_output in
  (forall data, In (HandleOutput data) (fst out) ->
     ex = Response 200 (ReadOk data) /\ snd out = handle_output data) /\
  (In Close (fst out) <->
     exists status body,
       ex = Response status body /\
       (status <> 200%Z \/ exists data, body = ReadOk data)) /\
  (forall err, err = timeout \/ err = gaierror ->
     ex = NoResponse err \/ ex = Response 200 (ReadFails err) ->
     snd out = Ok None /\ ~ In Close (fst out)) /\
  (forall e, snd out = Raise e ->
     ex = NoResponse (other_error e) \/
     ex = Response 200 (ReadFails (other_error e)) \/
     exists data, ex = Response 200 (ReadOk data) /\ handle_output data = Raise e).
Proof.
  destruct ex as [err | status body].
  - simpl. split; [| split; [| split]].
    + intros data [H | []]. discriminate.
    + split.
      * intros [H | []]. discriminate.
      * intros (status & body & H & _). discriminate.
    + intros err' Herr [[= <-] | H]; [| discriminate].
      split; [| intros [H | []]; discriminate].
      now destruct Herr as [-> | ->].
    + intros e He. left. destruct err as [| | e']; simpl in He; try discriminate.
      now injection He as <-.
  - destruct (Z.eq_dec status 200%Z) as [-> | Hne].
    + rewrite lookup_200. destruct body as [d | err]; simpl;
        (split; [| split; [| split]]).
      * intros data [H | [H | [H | [H | [H | []]]]]]; try discriminate.
        injection H as ->. auto.
      * split; [| auto]. intros _. exists 200%Z, (ReadOk d). eauto.
      * intros err' Herr [H | H]; discriminate.
      * intros e He. right. right. eauto.
      * intros data [H | [H | [H | []]]]; discriminate.
      * split.
        -- intros [H | [H | [H | []]]]; discriminate.
        -- intros (status & body & [= <- <-] & [H | [d H]]);
             [now contradiction H | discriminate].
      * intros err' Herr [H | [= <-]]; [discriminate |].
        split; [| intros [H | [H | [H | []]]]; discriminate].
        now destruct Herr as [-> | ->].
      * intros e He. right. left.
        destruct err as [| | e']; simpl in He; try discriminate.
        now injection He as <-.
    + rewrite reads_body_lookup_not_200 by assumption. simpl.
      split; [| split; [| split]].
      * intros data [H | [H | [H | []]]]; discriminate.
      * split; [| auto]. intros _. exists status, body. auto.
      * intros err' Herr [H | [= -> _]]; [discriminate | now contradiction Hne].
      * intros e He. discriminate.
Qed.

(** X8: the headers of a request. [Host] is always the host of the lookup
    (its [host], or its domain when it has none), whatever the class puts
    in [headers]; any other header of the class replaces the default of
    the same name; and [User-Agent] and [Accept] are always sent. *)
Theorem get_headers_precedence (USER_AGENT : string) (a : request_attrs) :
  get_headers USER_AGENT a !! "Host"
  = Some (match host a with Some h => h | None => domain a end) /\
  (forall name : string, name <> "Host" ->
     get_headers USER_AGENT a !! name
     = match headers a !! name with
       | Some v => Some v
       | None => default_headers USER_AGENT !! name
       end) /\
  is_Some (get_headers USER_AGENT a !! "User-Agent") /\
  is_Some (get_headers USER_AGENT a !! "Accept").
Proof.
  assert (Hother : forall name : string, name <> "Host" ->
     get_headers USER_AGENT a !! name
     = match headers a !! name with
       | Some v => Some v
       | None => default_headers USER_AGENT !! name
       end).
  { intros name Hne. unfold get_headers.
    rewrite lookup_insert_ne by congruence.
    rewrite lookup_union. destruct (headers a !! name) as [v |].
    - now destruct (default_headers USER_AGENT !! name).
    - now destruct (default_headers USER_AGENT !! name). }
  repeat split.
  - unfold get_headers, get_host, get_domain. now rewrite lookup_insert_eq.
  - exact Hother.
  - rewrite Hother by discriminate.
    destruct (headers a !! "User-Agent"); [eauto |]. now exists USER_AGENT.
  - rewrite Hother by discriminate.
    destruct (headers a !! "Accept"); [eauto |]. now exists "application/json".
Qed.

(** ** The search lookup without a local plain title *)

Section SearchErrors.

Context {result : Type}.
Variable str_similar : string -> string -> bool.
Variable get_results : bytes -> res (option (list result)).
Variable get_title : result -> option string.
Variable get_value : result -> option string.

Lemma search_without_plain_title (entry : gmap string string) (rs : list result) :
  entry !! "plain_title" = None ->
  search str_similar get_title get_value entry rs
  = if existsb (fun r => bool_decide (is_Some (get_title r))) rs
    then Raise (KeyError "plain_title") else Ok None.
Proof.
  intros Hp. induction rs as [| r rs IH]; cbn [search existsb]; [reflexivity |].
  destruct (get_title r) as [t |].
  - unfold getitem. rewrite Hp. reflexivity.
  - rewrite IH. reflexivity.
Qed.

(** X9: [handle_output] reads the local [plain_title] only when it meets a
    record that has a title. On a response with records [rs], it raises,
    and then [KeyError] on [plain_title], exactly when the entry has no
    [plain_title] and some record has a title; an entry without
    [plain_title] gets [None] from records that have no titles. *)
Theorem handle_output_key_error (entry : gmap string string) (data : bytes)
  (rs : list result) :
  get_results data = Ok (Some rs) ->
  let out := handle_output str_similar get_results get_title get_value entry data in
  (raises out = true <->
   entry !! "plain_title" = None /\ Exists (fun r => is_Some (get_title r)) rs) /\
  (raises out = true -> out = Raise (KeyError "plain_title")) /\
  (entry !! "plain_title" = None ->
   Forall (fun r => get_title r = None) rs -> out = Ok None).
Proof.
  intros Hr out. subst out. unfold handle_output. rewrite Hr. cbn [Py.bind].
  destruct (entry !! "plain_title") as [local_title |] eqn:Hp.
  - rewrite (search_first_some _ _ _ _ local_title _ Hp). simpl.
    repeat split; try discriminate. intros [H _]. discriminate.
  - rewrite (search_without_plain_title _ _ Hp).
    destruct (existsb _ rs) eqn:Hex.
    + apply existsb_exists in Hex as (r & Hin & Hr'%bool_decide_eq_true).
      repeat split; try reflexivity.
      * apply Exists_exists. exists r. split; [| exact Hr'].
        now apply list_elem_of_In.
      * intros _ Hall. rewrite Forall_forall in Hall.
        apply list_elem_of_In in Hin. rewrite (Hall r Hin) in Hr'.
        now destruct Hr'.
    + repeat split; try discriminate.
      intros [_ (r & Hin & Hr')%Exists_exists].
      assert (Hc : existsb (fun r => bool_decide (is_Some (get_title r))) rs = true).
      { apply existsb_exists. exists r. split; [now apply list_elem_of_In |].
        now apply bool_decide_eq_true. }
      congruence.
Qed.

End SearchErrors.

Lemma handle_output_key_error_witness :
  let records : list (option string * string) :=
    [(None, "10.1000/untitled"); (Some "My Paper", "10.1000/titled")] in
  let entry : gmap string string := {[ "ID" := "key"; "title" := "My Paper" ]} in
  let get_results : bytes -> res (option (list (option string * string))) :=
    fun _ => Ok (Some records) in
  let get_title (r : option string * string) := fst r in
  let get_value (r : option string * string) := Some (snd r) in
  let out := handle_output String.eqb get_results get_title get_value entry [] in
  get_results [] = Ok (Some records) /\
  (raises out = true <->
   entry !! "plain_title" = None /\ Exists (fun r => is_Some (get_title r)) records) /\
  (raises out = true -> out = Raise (KeyError "plain_title")) /\
  (entry !! "plain_title" = None ->
   Forall (fun r => get_title r = None) records -> out = Ok None).
Proof.
  intros records entry get_results get_title get_value out.
  split; [reflexivity |].
  apply (handle_output_key_error String.eqb get_results get_title get_value
           entry [] records).
  reflexivity.
Defined.

(** ** The multiple lookup: more edge cases of [query] *)

Section QueryEdges.

Variable author_join : string.
Variable max_search_queries : Z.
Variable net : list shot -> shot -> res (option string).


(** X12: a title whose plain form is not stored stops [query] before any
    lookup, with [KeyError] on [plain_title]: [has_field] looks at [title],
    the value is read from [plain_title]. *)
Theorem query_title_without_plain_form (entry : gmap string string) :
  has_field entry "title" = true ->
  entry !! "plain_title" = None ->
  run_query author_join max_search_queries net entry
  = (mkState (init entry) [], Raise (KeyError "plain_title")).
Proof.
  intros Ht Hpt.
  unfold run_query, query, mbind, gets, lift, getitem, init.
  cbn [fst snd self log title author Lookup.entry].
  rewrite Ht, Hpt. reflexivity.
Qed.


End QueryEdges.


Lemma query_title_without_plain_form_witness :
  let entry : gmap string string := {[ "ID" := "key"; "title" := "{T}itle" ]} in
  (has_field entry "title" = true /\ entry !! "plain_title" = None) /\
  run_query " " 10%Z (fun _ _ => Ok (Some "10.1000/182")) entry
  = (mkState (init entry) [], Raise (KeyError "plain_title")).
Proof.
  intros entry. split; [split; reflexivity |].
  apply (query_title_without_plain_form " " 10%Z
           (fun _ _ => Ok (Some "10.1000/182")) entry); reflexivity.
Defined.


(** ** The multiple lookup: what an answer of [query] means *)

Section QueryOutcome.

Variable author_join : string.
Variable max_search_queries : Z.
Variable net : list shot -> shot -> res (option string).

Local Abbreviation first_hit := (first_hit net).
Local Abbreviation one_author_loop := (one_author_loop max_search_queries net).

(** A walk that ends with [None] has made every query of the plan, and
    every query was answered [None]. *)
Lemma first_hit_none (plan : list shot) :
  forall made made' : list shot,
    first_hit plan made = (made', Ok None) ->
    made' = (made ++ plan)%list /\
    forall i s, plan !! i = Some s -> net (made ++ take i plan)%list s = Ok None.
Proof.
  induction plan as [| s0 plan IH]; intros made made' Hwalk; simpl in Hwalk.
  - injection Hwalk as <-. rewrite app_nil_r. split; [reflexivity |].
    intros i s Hi. now rewrite lookup_nil in Hi.
  - destruct (net made s0) as [[v |] | e] eqn:Hnet; try discriminate.
    destruct (IH _ _ Hwalk) as [-> Hall]. split.
    + now rewrite <- app_assoc.
    + intros [| i] s Hi; simpl in Hi.
      * injection Hi as <-. now rewrite take_0, app_nil_r.
      * specialize (Hall i s Hi). now rewrite <- app_assoc in Hall.
Qed.

(** A walk that ends with a value has stopped at the query that gave it:
    the queries in front of it were answered [None], those behind it were
    not made. *)
Lemma first_hit_some (plan : list shot) :
  forall (made made' : list shot) (v : string),
    first_hit plan made = (made', Ok (Some v)) ->
    exists k s,
      plan !! k = Some s /\
      made' = (made ++ take (S k) plan)%list /\
      net (made ++ take k plan)%list s = Ok (Some v) /\
      forall i s', (i < k)%nat -> plan !! i = Some s' ->
        net (made ++ take i plan)%list s' = Ok None.
Proof.
  induction plan as [| s0 plan IH]; intros made made' v Hwalk; simpl in Hwalk.
  - discriminate.
  - destruct (net made s0) as [[w |] | e] eqn:Hnet; try discriminate.
    + injection Hwalk as <- <-. exists 0%nat, s0.
      rewrite take_0, app_nil_r. repeat split; try assumption.
      intros i s' Hi. lia.
    + destruct (IH _ _ _ Hwalk) as (k & s & Hk & -> & Hv & Hbefore).
      exists (S k), s. repeat split.
      * exact Hk.
      * cbn [take]. now rewrite <- app_assoc.
      * cbn [take]. now rewrite <- app_assoc in Hv.
      * intros [| i] s' Hi Hs'; simpl in Hs'.
        -- injection Hs' as <-. now rewrite take_0, app_nil_r.
        -- specialize (Hbefore i s' ltac:(lia) Hs').
           now rewrite <- app_assoc in Hbefore.
Qed.

(** On an entry with a title and authors, [query] is the walk through its
    plan. *)
Lemma query_is_walk (entry : gmap string string)
  (plain_title plain_author : string) (authors : list Author) :
  has_field entry "title" = true ->
  entry !! "plain_title" = Some plain_title ->
  has_field entry "author" = true ->
  entry !! "plain_author" = Some plain_author ->
  get_authors plain_author = Ok authors ->
  (log (fst (run_query author_join max_search_queries net entry)),
   snd (run_query author_join max_search_queries net entry))
  = first_hit (query_plan author_join max_search_queries (strip plain_title) authors) [].
Proof.
  intros Ht Hpt Ha Hpa Hauthors.
  unfold run_query, query, mbind, gets, lift, ret, set_title, set_author, modify,
    read_title, do_lookup, getitem, local, getattr, init.
  cbn [fst snd self log title author Lookup.entry].
  rewrite Ht, Hpt, Ha, Hpa, Hauthors.
  cbn [fst snd self log title author Lookup.entry bool_decide].
  unfold query_plan. cbn [app Lookup.first_hit].
  destruct (net [] (Bound (Some (strip plain_title)),
                    Bound (Some (join author_join (map lastname authors)))))
    as [[v |] | e]; cbn [fst snd log]; try reflexivity.
  rewrite first_hit_app.
  set (st1 := mkState _ _).
  destruct (1 <? length authors)%nat.
  - destruct (one_author_loop_walks max_search_queries net authors 1%Z st1)
      as [Hloop Htitle].
    replace (Z.to_nat (Z.max 1 (max_search_queries - 1 + 1)))
      with (Z.to_nat (Z.max 1 max_search_queries)) in Hloop by lia.
    change (title (self st1)) with (Bound (Some (strip plain_title))) in Hloop, Htitle.
    match goal with
    | |- context [Lookup.first_hit net ?p ?m] =>
        match type of Hloop with
        | ?lhs = _ => change (lhs = Lookup.first_hit net p m) in Hloop
        end
    end.
    rewrite <- Hloop.
    destruct (one_author_loop authors 1%Z st1) as [st2 [[v |] | e]];
      cbn [fst snd] in *; try reflexivity.
    rewrite Htitle. cbn [Lookup.first_hit].
    cbn [fst snd self log title author Lookup.entry].
    destruct (net (log st2) (Bound (Some (strip plain_title)), Bound None))
      as [[v |] | e]; reflexivity.
  - cbn [Lookup.first_hit fst snd self log title author Lookup.entry st1].
    subst st1. cbn [fst snd self log title author Lookup.entry].
    destruct (net _ (Bound (Some (strip plain_title)), Bound None))
      as [[v |] | e]; reflexivity.
Qed.


End QueryOutcome.


(** ** The plain fields of an entry *)

(** X15: [remove_plain_fields] deletes exactly the fields whose name starts
    with [plain_]: none of them is left, every other field keeps its
    value, and a second call changes nothing. *)
Theorem remove_plain_fields_exactly (entry : gmap string string) :
  (forall field,
     remove_plain_fields entry !! field
     = if starts_with PLAIN_PREFIX field then None else entry !! field) /\
  remove_plain_fields (remove_plain_fields entry) = remove_plain_fields entry.
Proof.
  split.
  - apply remove_plain_fields_lookup.
  - apply map_eq. intros field. rewrite !remove_plain_fields_lookup.
    now destruct (starts_with PLAIN_PREFIX field).
Qed.

Lemma strip_plain_all_again (h : store) (ls : list loc) (l : loc) :
  strip_plain_all (strip_plain_all h ls) ls l = strip_plain_all h ls l.
Proof.
  apply map_eq. intros field. rewrite !strip_plain_all_lookup.
  destruct (existsb (Nat.eqb l) ls), (starts_with PLAIN_PREFIX field); reflexivity.
Qed.

(** X16: writing a database twice is the same as writing it once: the
    second [write] finds no plain field to remove, leaves every entry as
    the first left it, and lists the same entries in the same order. *)
Theorem write_twice (str_lower : string -> string) (h : store)
  (database : BibDatabase) :
  let once := write str_lower h database in
  let twice := write str_lower (fst once) database in
  snd twice = snd once /\ forall l, fst twice l = fst once l.
Proof.
  intros once twice. subst once twice. unfold write. cbn [fst snd].
  assert (Hsame : forall l,
    strip_plain_all (strip_plain_all h (entries database)) (entries database) l
    = strip_plain_all h (entries database) l)
    by (intros l; apply strip_plain_all_again).
  split; [| exact Hsame].
  f_equal. apply map_ext. intros l. apply Hsame.
Qed.

Lemma append_inj (p a b : string) : p +:+ a = p +:+ b -> a = b.
Proof.
  induction p as [| c p IH]; [auto |].
  rewrite !append_cons. intros [= H]. auto.
Qed.

Lemma starts_with_false_append (p k a : string) :
  starts_with p k = false -> k <> p +:+ a.
Proof. intros Hk ->. now rewrite starts_with_append in Hk. Qed.

Lemma add_plaintext_field_lookup (r : gmap string string) (a k : string) :
  Bibtexparser.add_plaintext_field r a !! ("plain_" +:+ k)
  = match (if decide (k = a) then r !! a else None) with
    | Some v => Some (Bibtexparser.strip_string v)
    | None => r !! ("plain_" +:+ k)
    end.
Proof.
  unfold Bibtexparser.add_plaintext_field.
  destruct (decide (k = a)) as [-> | Hne].
  - destruct (r !! a) as [v |]; [| reflexivity]. apply lookup_insert_eq.
  - destruct (r !! a) as [v |]; [| reflexivity].
    apply lookup_insert_ne. intros H. apply append_inj in H. congruence.
Qed.

Lemma add_plaintext_field_other (r : gmap string string) (a k : string) :
  starts_with "plain_" k = false ->
  Bibtexparser.add_plaintext_field r a !! k = r !! k.
Proof.
  intros Hk. unfold Bibtexparser.add_plaintext_field.
  destruct (r !! a) as [v |]; [| reflexivity].
  apply lookup_insert_ne. intros H. symmetry in H.
  now apply (starts_with_false_append _ _ _ Hk) in H.
Qed.

(** The loop of [add_plaintext_fields] over keys that do not start with
    [plain_]. *)
Lemma add_plaintext_fold (ks : list string) :
  forall r : gmap string string,
    Forall (fun a => starts_with "plain_" a = false) ks ->
    (forall k, starts_with "plain_" k = false ->
       fold_left Bibtexparser.add_plaintext_field ks r !! k = r !! k) /\
    (forall k,
       fold_left Bibtexparser.add_plaintext_field ks r !! ("plain_" +:+ k)
       = match (if decide (k ∈ ks) then r !! k else None) with
         | Some v => Some (Bibtexparser.strip_string v)
         | None => r !! ("plain_" +:+ k)
         end).
Proof.
  induction ks as [| a ks IH]; intros r Hks.
  - split; [reflexivity |]. intros k. cbn [fold_left].
    destruct (decide (k ∈ [])) as [H | _]; [| reflexivity].
    now apply elem_of_nil in H.
  - apply Forall_cons in Hks as [Ha Hks]. cbn [fold_left].
    destruct (IH (Bibtexparser.add_plaintext_field r a) Hks) as [Hother Hplain].
    split.
    + intros k Hk. rewrite (Hother k Hk). now apply add_plaintext_field_other.
    + intros k. rewrite Hplain, add_plaintext_field_lookup.
      destruct (decide (k ∈ ks)) as [Hin | Hin].
      * assert (Hk : starts_with "plain_" k = false).
        { rewrite Forall_forall in Hks. now apply Hks. }
        rewrite (add_plaintext_field_other r a k Hk).
        destruct (decide (k ∈ a :: ks)) as [_ | Hn];
          [| contradiction Hn; apply elem_of_cons; now right].
        destruct (r !! k) as [v |] eqn:Hrk; [reflexivity |].
        destruct (decide (k = a)) as [-> | Hne]; [now rewrite Hrk | reflexivity].
      * destruct (decide (k = a)) as [-> | Hne].
        -- destruct (decide (a ∈ a :: ks)) as [_ | Hn];
             [reflexivity | contradiction Hn; apply elem_of_cons; now left].
        -- destruct (decide (k ∈ a :: ks)) as [Hc | _]; [| reflexivity].
           apply elem_of_cons in Hc as [-> | Hc]; contradiction.
Qed.

Lemma update_plain_fields_lookups (entry : gmap string string) :
  (forall k, starts_with PLAIN_PREFIX k = false ->
     update_plain_fields entry !! k = entry !! k) /\
  (forall k,
     update_plain_fields entry !! (PLAIN_PREFIX +:+ k)
     = if starts_with PLAIN_PREFIX k then None
       else Bibtexparser.strip_string <$> entry !! k).
Proof.
  unfold update_plain_fields, Bibtexparser.add_plaintext_fields.
  set (e' := remove_plain_fields entry).
  assert (Hkeys : Forall (fun a => starts_with "plain_" a = false)
                    (map fst (map_to_list e'))).
  { apply Forall_forall. intros a Ha.
    apply list_elem_of_In, in_map_iff in Ha as ([a' v] & <- & Hin).
    apply list_elem_of_In, elem_of_map_to_list in Hin. cbn [fst].
    subst e'. rewrite remove_plain_fields_lookup in Hin.
    change PLAIN_PREFIX with "plain_" in Hin.
    now destruct (starts_with "plain_" a'). }
  destruct (add_plaintext_fold _ e' Hkeys) as [Hother Hplain].
  change PLAIN_PREFIX with "plain_". split.
  - intros k Hk. rewrite (Hother k Hk). subst e'.
    rewrite remove_plain_fields_lookup. change PLAIN_PREFIX with "plain_".
    now rewrite Hk.
  - intros k. rewrite Hplain.
    assert (Hgone : e' !! ("plain_" +:+ k) = None).
    { subst e'. rewrite remove_plain_fields_lookup.
      change PLAIN_PREFIX with "plain_". now rewrite starts_with_append. }
    assert (Hk' : e' !! k = if starts_with "plain_" k then None else entry !! k).
    { subst e'. now rewrite remove_plain_fields_lookup. }
    rewrite Hgone.
    destruct (decide (k ∈ map fst (map_to_list e'))) as [Hin | Hin].
    + rewrite Hk'. destruct (starts_with "plain_" k); [reflexivity |].
      now destruct (entry !! k).
    + destruct (starts_with "plain_" k); [reflexivity |].
      destruct (entry !! k) as [v |] eqn:Hv; [| reflexivity].
      contradiction Hin. apply list_elem_of_In, in_map_iff.
      exists (k, v). split; [reflexivity |].
      apply list_elem_of_In, elem_of_map_to_list. now rewrite Hk'.
Qed.

(** X17: [update_plain_fields] rebuilds the plain fields from the other
    fields alone. Afterwards every field [f] whose name does not start
    with [plain_] has its value, [plain_f] holds that value without
    braces, and there is no other plain field: a stale [plain_f] whose
    field [f] is gone has disappeared. *)
Theorem update_plain_fields_rebuilds (entry : gmap string string) (field : string) :
  (starts_with PLAIN_PREFIX field = false ->
   update_plain_fields entry !! field = entry !! field /\
   update_plain_fields entry !! (PLAIN_PREFIX +:+ field)
   = Bibtexparser.strip_string <$> entry !! field) /\
  (starts_with PLAIN_PREFIX field = true ->
   update_plain_fields entry !! (PLAIN_PREFIX +:+ field) = None).
Proof.
  destruct (update_plain_fields_lookups entry) as [Hother Hplain].
  split.
  - intros Hf. split; [now apply Hother |]. now rewrite Hplain, Hf.
  - intros Hf. now rewrite Hplain, Hf.
Qed.

(** X18: [update_plain_fields] is idempotent: updating an entry that is up
    to date changes nothing. *)
Theorem update_plain_fields_idempotent (entry : gmap string string) :
  update_plain_fields (update_plain_fields entry) = update_plain_fields entry.
Proof.
  destruct (update_plain_fields_lookups entry) as [Hother Hplain].
  destruct (update_plain_fields_lookups (update_plain_fields entry))
    as [Hother2 Hplain2].
  apply map_eq. intros k.
  destruct (starts_with PLAIN_PREFIX k) eqn:Hk.
  - apply starts_with_drop in Hk.
    set (k0 := drop_chars (String.length PLAIN_PREFIX) k) in Hk. rewrite Hk.
    rewrite Hplain2, Hplain.
    destruct (starts_with PLAIN_PREFIX k0) eqn:Hk0; [reflexivity |].
    now rewrite (Hother k0 Hk0).
  - now rewrite (Hother2 k Hk).
Qed.

(** Braces go, stale plain fields go. *)
Example update_plain_fields_example :
  update_plain_fields
    {[ "title" := "The {B}ib{T}e{X} book"; "plain_title" := "old";
       "plain_note" := "stale" ]}
  = ({[ "title" := "The {B}ib{T}e{X} book";
        "plain_title" := "The BibTeX book" ]} : gmap string string).
Proof. apply map_eq. intros k. vm_compute. reflexivity. Qed.

(** ** Authors: from a record to BibTeX and back *)

Lemma append_nil_r (s : string) : s +:+ EmptyString = s.
Proof.
  induction s as [| c s IH]; [reflexivity |]. now rewrite append_cons, IH.
Qed.

Lemma append_assoc (a b c : string) : a +:+ b +:+ c = (a +:+ b) +:+ c.
Proof.
  induction a as [| x a IH]; [reflexivity |]. now rewrite !append_cons, IH.
Qed.

Lemma all_chars_impl (p q : ascii -> bool) (s : string) :
  (forall c, p c = true -> q c = true) ->
  all_chars p s = true -> all_chars q s = true.
Proof.
  intros Hpq. induction s as [| c s IH]; simpl; [reflexivity |].
  intros [Hc Hs]%andb_true_iff. rewrite (Hpq c Hc). now apply IH.
Qed.

Lemma starts_with_all_chars (p : ascii -> bool) (pre s : string) :
  starts_with pre s = true -> all_chars p s = true -> all_chars p pre = true.
Proof.
  revert s. induction pre as [| a pre IH]; intros [| b s]; simpl; try easy.
  intros [Hab Hpre]%andb_true_iff [Hb Hs]%andb_true_iff.
  apply Ascii.eqb_eq in Hab as ->. rewrite Hb. now apply (IH s).
Qed.

(** A word without the first character of the separator is skipped by
    [find_sep]. *)
Lemma find_sep_skip (c0 : ascii) (sep' w r : string) :
  all_chars (fun c => negb (Ascii.eqb c0 c)) w = true ->
  find_sep (String c0 sep') (w +:+ r)
  = match find_sep (String c0 sep') r with
    | Some (a, b) => Some (w +:+ a, b)
    | None => None
    end.
Proof.
  induction w as [| c w IH]; intros Hw.
  - change (EmptyString +:+ r) with r.
    now destruct (find_sep (String c0 sep') r) as [[a b] |].
  - simpl in Hw. apply andb_true_iff in Hw as [Hc Hw].
    rewrite append_cons, find_sep_unfold.
    cbn [starts_with]. apply negb_true_iff in Hc. rewrite Hc. cbn [andb].
    rewrite (IH Hw).
    now destruct (find_sep (String c0 sep') r) as [[a b] |].
Qed.

Lemma find_sep_absent (c0 : ascii) (sep' w : string) :
  all_chars (fun c => negb (Ascii.eqb c0 c)) w = true ->
  find_sep (String c0 sep') w = None.
Proof.
  intros Hw. rewrite <- (append_nil_r w) at 1.
  rewrite (find_sep_skip c0 sep' w EmptyString Hw). reflexivity.
Qed.

Lemma find_sep_first (c0 : ascii) (sep' w r : string) :
  all_chars (fun c => negb (Ascii.eqb c0 c)) w = true ->
  find_sep (String c0 sep') (w +:+ String c0 sep' +:+ r) = Some (w, r).
Proof.
  intros Hw. rewrite (find_sep_skip c0 sep' w _ Hw).
  rewrite find_sep_unfold, starts_with_append.
  replace (drop_chars (String.length (String c0 sep')) (String c0 sep' +:+ r)) with r.
  - now rewrite append_nil_r.
  - clear. induction (String c0 sep') as [| c p IH]; [reflexivity | exact IH].
Qed.

Lemma split_on_absent (c0 : ascii) (sep' w : string) :
  all_chars (fun c => negb (Ascii.eqb c0 c)) w = true ->
  split_on (String c0 sep') w = [w].
Proof.
  intros Hw. unfold split_on. destruct (String.length w); cbn [split_aux];
    [reflexivity |]. now rewrite (find_sep_absent c0 sep' w Hw).
Qed.

Lemma lstrip_word (w : string) :
  all_chars (fun c => negb (isspace c)) w = true -> lstrip w = w.
Proof.
  destruct w as [| c w]; simpl; [reflexivity |].
  intros [Hc _]%andb_true_iff. apply negb_true_iff in Hc. now rewrite Hc.
Qed.

Lemma rstrip_word (w : string) :
  all_chars (fun c => negb (isspace c)) w = true -> rstrip w = w.
Proof.
  induction w as [| c w IH]; simpl; [reflexivity |].
  intros [Hc Hw]%andb_true_iff. apply negb_true_iff in Hc.
  rewrite (IH Hw), Hc. now destruct w.
Qed.

Lemma rstrip_append (a b : string) :
  rstrip b <> EmptyString -> rstrip (a +:+ b) = a +:+ rstrip b.
Proof.
  intros Hb. induction a as [| c a IH]; [reflexivity |].
  rewrite !append_cons. cbn [rstrip]. rewrite IH.
  destruct (a +:+ rstrip b) eqn:Happ; [| reflexivity].
  destruct a; [| discriminate]. now contradiction Hb.
Qed.

Lemma strip_word (w : string) :
  all_chars (fun c => negb (isspace c)) w = true -> strip w = w.
Proof. intros Hw. unfold strip. now rewrite lstrip_word, rstrip_word. Qed.

Lemma split_ws_aux_word (w : string) :
  forall cur : string,
    all_chars (fun c => negb (isspace c)) w = true ->
    cur +:+ w <> EmptyString ->
    split_ws_aux w cur = [cur +:+ w].
Proof.
  induction w as [| c w IH]; intros cur Hw Hne; simpl.
  - rewrite append_nil_r in *.
    now destruct (String.eqb_spec cur EmptyString).
  - simpl in Hw. apply andb_true_iff in Hw as [Hc Hw].
    apply negb_true_iff in Hc. rewrite Hc.
    rewrite (IH (cur +:+ String c EmptyString) Hw).
    + now rewrite <- append_assoc.
    + rewrite <- append_assoc. exact Hne.
Qed.

Lemma split_ws_space_word (w : string) :
  all_chars (fun c => negb (isspace c)) w = true ->
  w <> EmptyString ->
  split_ws (" " +:+ w) = [w].
Proof.
  intros Hw Hne. unfold split_ws.
  change (" " +:+ w) with (String " " w). cbn [split_ws_aux].
  change (isspace " ") with true. cbv iota.
  change (String.eqb EmptyString EmptyString) with true. cbv iota.
  now apply (split_ws_aux_word w EmptyString).
Qed.

Lemma one_word_parts (w : string) :
  one_word w = true ->
  w <> EmptyString /\
  all_chars (fun c => negb (isspace c)) w = true /\
  all_chars (fun c => negb (Ascii.eqb "," c)) w = true.
Proof.
  unfold one_word. intros [Hne Hall]%andb_true_iff. repeat split.
  - intros ->. discriminate.
  - revert Hall. apply all_chars_impl. now intros c [H _]%andb_true_iff.
  - revert Hall. apply all_chars_impl. intros c [_ H]%andb_true_iff.
    now rewrite Ascii.eqb_sym.
Qed.

Lemma starts_with_cons (a b : ascii) (p s : string) :
  starts_with (String a p) (String b s) = Ascii.eqb a b && starts_with p s.
Proof. reflexivity. Qed.

Lemma all_chars_append (p : ascii -> bool) (a b : string) :
  all_chars p (a +:+ b) = all_chars p a && all_chars p b.
Proof.
  induction a as [| c a IH]; [reflexivity |].
  rewrite append_cons. simpl. rewrite IH. now rewrite andb_assoc.
Qed.

Lemma split_aux_cut (fuel : nat) (sep s a b : string) :
  find_sep sep s = Some (a, b) ->
  find_sep sep b = None ->
  split_aux (S fuel) sep s = [a; b].
Proof.
  intros Hs Hb. cbn [split_aux]. rewrite Hs.
  destruct fuel; cbn [split_aux]; [reflexivity | now rewrite Hb].
Qed.

Section LastFirst.

Variables last first : string.
Hypothesis Hlast : one_word last = true.
Hypothesis Hfirst : one_word first = true.

Let s : string := last +:+ ", " +:+ first.

Lemma last_first_length : exists n, String.length s = S n.
Proof. subst s. apply (length_append_cons last "," (" " +:+ first)). Qed.

Lemma last_first_no_newline : replace newline " " s = s.
Proof.
  destruct (one_word_parts _ Hlast) as (_ & Hl & _).
  destruct (one_word_parts _ Hfirst) as (_ & Hf & _).
  unfold replace, newline. rewrite (split_on_absent _ EmptyString s); [reflexivity |].
  subst s. rewrite !all_chars_append. apply andb_true_iff. split; [| apply andb_true_iff; split].
  - revert Hl. apply all_chars_impl. intros c Hc.
    destruct (Ascii.eqb_spec (ascii_of_nat 10) c) as [<- | _]; [discriminate | reflexivity].
  - reflexivity.
  - revert Hf. apply all_chars_impl. intros c Hc.
    destruct (Ascii.eqb_spec (ascii_of_nat 10) c) as [<- | _]; [discriminate | reflexivity].
Qed.

Lemma last_first_no_and : split_on " and " s = [s].
Proof.
  destruct (one_word_parts _ Hlast) as (_ & Hl & _).
  destruct (one_word_parts _ Hfirst) as (_ & Hf & _).
  assert (Hnospace : forall w,
            all_chars (fun c => negb (isspace c)) w = true ->
            all_chars (fun c => negb (Ascii.eqb " " c)) w = true).
  { intros w. apply all_chars_impl. intros c Hc.
    destruct (Ascii.eqb_spec " " c) as [<- | _]; [discriminate | reflexivity]. }
  assert (Hnone : find_sep " and " s = None).
  { subst s. change (last +:+ ", " +:+ first)
      with (last +:+ ("," +:+ (" " +:+ first))).
    rewrite append_assoc.
    change " and " with (String " " "and ").
    assert (Hstart : starts_with "and " first = false).
    { destruct (starts_with "and " first) eqn:E; [| reflexivity].
      apply (starts_with_all_chars (fun c => negb (isspace c))) in E;
        [vm_compute in E; discriminate | exact Hf]. }
    rewrite find_sep_skip.
    - rewrite find_sep_unfold.
      change (" " +:+ first) with (String " " first).
      rewrite starts_with_cons. change (Ascii.eqb " " " ") with true.
      cbn [andb]. rewrite Hstart.
      now rewrite (find_sep_absent " " "and " first (Hnospace _ Hf)).
    - rewrite all_chars_append. apply andb_true_iff. split; [now apply Hnospace | reflexivity]. }
  unfold split_on. destruct last_first_length as [n ->].
  cbn [split_aux]. now rewrite Hnone.
Qed.

Lemma last_first_strip : strip s = s.
Proof.
  destruct (one_word_parts _ Hlast) as (Hne & Hl & _).
  destruct (one_word_parts _ Hfirst) as (Hnf & Hf & _).
  unfold strip.
  assert (Hls : lstrip s = s).
  { subst s. destruct last as [| c l']; [contradiction |].
    rewrite append_cons. cbn [lstrip]. simpl in Hl.
    apply andb_true_iff in Hl as [Hc _]. apply negb_true_iff in Hc.
    now rewrite Hc. }
  rewrite Hls. subst s.
  rewrite (append_assoc last ", " first).
  rewrite rstrip_append; rewrite (rstrip_word first Hf); [reflexivity | exact Hnf].
Qed.

Lemma last_first_comma : find_sep "," s = Some (last, " " +:+ first).
Proof.
  destruct (one_word_parts _ Hlast) as (_ & _ & Hl).
  subst s. change (last +:+ ", " +:+ first)
    with (last +:+ String "," EmptyString +:+ (" " +:+ first)).
  now apply find_sep_first.
Qed.

Lemma last_first_split : split_on ", " s = [last; first].
Proof.
  destruct (one_word_parts _ Hlast) as (_ & _ & Hl).
  destruct (one_word_parts _ Hfirst) as (_ & _ & Hf).
  unfold split_on. destruct last_first_length as [n ->].
  apply split_aux_cut.
  - subst s. change ", " with (String "," " "). now apply find_sep_first.
  - change ", " with (String "," " "). now apply find_sep_absent.
Qed.

Lemma last_first_tidy :
  mem last Bibtexparser.suffixes = false ->
  mem first Bibtexparser.particles = false ->
  Bibtexparser.tidy_name s = Ok (Some s).
Proof.
  intros Hsuffix Hparticle.
  destruct (one_word_parts _ Hlast) as (_ & Hl & _).
  destruct (one_word_parts _ Hfirst) as (Hnf & Hf & _).
  unfold Bibtexparser.tidy_name. rewrite last_first_strip.
  destruct last_first_length as [n Hn]. rewrite Hn.
  change (S n <? 1)%nat with false. cbv iota.
  unfold contains, split_once. rewrite last_first_comma.
  rewrite index_0, index_1. cbn [Py.bind].
  rewrite (strip_word last Hl), (split_ws_space_word first Hf Hnf).
  cbn [map]. rewrite (strip_word first Hf), Hsuffix. cbn [Py.bind].
  cbn [length Bibtexparser.particle_loop lookup list_lookup].
  change ([first] !! 0%nat) with (Some first). cbv iota.
  rewrite Hparticle. reflexivity.
Qed.

End LastFirst.

(** X19: an author with a one-word ASCII last name and a one-word ASCII
    first name (no white space, no comma, not empty) survives the round
    trip through BibTeX: [get_authors] gives back exactly the author that
    [to_bibtex] wrote, as long as the last name is not a suffix ([jnr],
    [jr], [junior]) and the first name is not a particle ([ben], [van],
    [der], [de], [la], [le]). *)
Theorem get_authors_to_bibtex (last first : string) :
  is_ascii last = true ->
  is_ascii first = true ->
  one_word last = true ->
  one_word first = true ->
  mem last Bibtexparser.suffixes = false ->
  mem first Bibtexparser.particles = false ->
  get_authors (to_bibtex (mkAuthor last (Some first)))
  = Ok [mkAuthor last (Some first)].
Proof.
  intros _ _ Hlast Hfirst Hsuffix Hparticle.
  unfold to_bibtex. cbn [firstnames lastname].
  unfold get_authors, name_strings.
  rewrite (last_first_no_newline last first Hlast Hfirst).
  rewrite (last_first_no_and last first Hlast Hfirst). cbn [map].
  rewrite (last_first_strip last first Hlast Hfirst).
  cbn [Bibtexparser.getnames].
  rewrite (last_first_tidy last first Hlast Hfirst Hsuffix Hparticle).
  cbn [Py.bind mapM].
  rewrite (last_first_split last first Hlast Hfirst).
  rewrite index_0, index_1. reflexivity.
Qed.

Lemma get_authors_to_bibtex_witness :
  (is_ascii "Knuth" = true /\ is_ascii "Donald" = true /\
   one_word "Knuth" = true /\ one_word "Donald" = true /\
   mem "Knuth" Bibtexparser.suffixes = false /\
   mem "Donald" Bibtexparser.particles = false) /\
  get_authors (to_bibtex (mkAuthor "Knuth" (Some "Donald")))
  = Ok [mkAuthor "Knuth" (Some "Donald")].
Proof.
  split; [repeat split |].
  apply (get_authors_to_bibtex "Knuth" "Donald"); reflexivity.
Defined.

(** The round trip is lost on an author without first names ([None] comes
    back as the empty string) and on a first name that is a particle (it
    moves into the last name). *)
Example get_authors_to_bibtex_limits :
  get_authors (to_bibtex (mkAuthor "Plato" None)) = Ok [mkAuthor "Plato" (Some "")] /\
  get_authors (to_bibtex (mkAuthor "Gaulle" (Some "de")))
  = Ok [mkAuthor "de Gaulle" (Some "")].
Proof. split; reflexivity. Qed.
